(** * Loan eligibility decision engine

    A shallow embedding of [loan_prediction_system.py]: the synthetic
    labelling policy ([generate_loan_data] and its inner
    [determine_eligibility]), the preprocessing and training pipeline of
    [LoanEligibilityModel], the post-prediction business rules and the
    joblib persistence of the fitted pipeline.

    Conventions.
    - A Python float is modelled by its exact rational value ([Q]), so
      comparisons of floats are comparisons of rationals; the arithmetic
      of the eligibility score rounds every operation to binary64
      ([round_binary64]).  Integer columns are [Z], Python strings
      [string].
    - A Python call that may raise returns [result A = exn + A]; [inl e]
      is the raised exception, identified by its class through
      [exn_class].
    - Instance attributes mutated by a method are threaded explicitly: the
      method takes [self] and returns the updated [self].
    - numpy's random generator, the scikit-learn estimators and joblib
      are library code; they enter through the interfaces [NumpyRandom],
      [Sklearn] and [Joblib], except [LabelEncoder], whose behaviour
      decides several properties and is modelled concretely.
    - [round_binary64] is compared with the primitive floats of the
      kernel on the score of sample rows ([sample_scores_agree]). *)

From Stdlib Require Import QArith Qround Qminmax Qpower Qabs Lqa.
From Stdlib Require Import PrimFloat FloatOps SpecFloat.
From stdpp Require Import gmap strings list.

#[local] Set Warnings "-inexact-float".

Local Open Scope Z_scope.

(* ================================================================== *)
(** * Python exceptions and fallible calls *)

Inductive exn : Type :=
  | KeyError (key : string)
  | IndexError (msg : string)
  | ValueError (msg : string)
  | NotFittedError (msg : string)
  | FileNotFoundError (path : string).

(** The class name of an exception, as [type(e).__name__] gives it. *)
Definition exn_class (e : exn) : string :=
  match e with
  | KeyError _ => "KeyError"
  | IndexError _ => "IndexError"
  | ValueError _ => "ValueError"
  | NotFittedError _ => "NotFittedError"
  | FileNotFoundError _ => "FileNotFoundError"
  end.

Definition result (A : Type) : Type := (exn + A)%type.

Definition ok {A} (a : A) : result A := inr a.
Definition raise {A} (e : exn) : result A := inl e.

Definition rbind {A B} (c : result A) (k : A → result B) : result B :=
  match c with
  | inl e => inl e
  | inr a => k a
  end.

Notation "'let!' x ':=' c 'in' k" := (rbind c (λ x, k))
  (at level 10, x pattern, c at level 100, k at level 200,
   format "'let!'  x  ':='  c  'in'  '/' k").

(** [c] raised an exception of class [cls]. *)
Definition raises {A} (c : result A) (cls : string) : Prop :=
  ∃ e, c = inl e ∧ exn_class e = cls.

(** Run a fallible function over a list, stopping at the first exception. *)
Fixpoint result_mapM {A B} (f : A → result B) (l : list A) : result (list B) :=
  match l with
  | [] => ok []
  | a :: l' =>
      let! b := f a in
      let! bs := result_mapM f l' in
      ok (b :: bs)
  end.

(* ================================================================== *)
(** * Rational helpers *)

(** [x < y] on floats. *)
Definition Qlt_bool (x y : Q) : bool := negb (Qle_bool y x).

(** [np.clip(x, lo, hi)]. *)
Definition np_clip (lo hi x : Q) : Q := Qmin (Qmax x lo) hi.

(** [.astype(int)]: truncation towards zero. *)
Definition astype_int (x : Q) : Z := Z.quot (Qnum x) (Zpos (Qden x)).

(* ================================================================== *)
(** * Binary64 arithmetic

    IEEE 754 double precision, the [float] of Python and numpy: a result
    is the exact result rounded to the nearest number with 53
    significant bits, ties to the even significand, with the smallest
    exponent -1074 (gradual underflow).  The format's upper bound is not
    modelled: no operation below comes near 2^1024 on finite inputs. *)

(** The floor of the binary logarithm of a positive rational. *)
Definition Qlog2 (q : Q) : Z :=
  let k := Z.log2 (Qnum q) - Z.log2 (Zpos (Qden q)) in
  if Qle_bool (2 ^ k) q then k else k - 1.

(** The nearest integer, ties to the even one. *)
Definition round_half_even (q : Q) : Z :=
  let f := Qfloor q in
  match Qcompare (q - inject_Z f) 0.5%Q with
  | Lt => f
  | Gt => f + 1
  | Eq => if Z.even f then f else f + 1
  end.

(** The exponent of the unit in the last place of [q]. *)
Definition binary64_exponent (q : Q) : Z :=
  Z.max (Qlog2 (Qabs q) - 52) (-1074).

Definition round_binary64 (q : Q) : Q :=
  let e := binary64_exponent q in
  (inject_Z (round_half_even (q / 2 ^ e)) * 2 ^ e)%Q.

(** [x + y], [x - y] and [x / y] on floats; the divisors below are
    non-zero constants. *)
Definition float_add (x y : Q) : Q := round_binary64 (x + y).
Definition float_sub (x y : Q) : Q := round_binary64 (x - y).
Definition float_div (x y : Q) : Q := round_binary64 (x / y).

(* ================================================================== *)
(** * Rows *)

(** One row of the applicant data frame. *)
Record row : Type := Row {
  income : Q;
  credit_score : Z;
  employment_status : string;
  loan_type : string
}.

(** A row of the training frame: the four columns plus ['eligibility']. *)
Record labeled_row : Type := LabeledRow {
  applicant : row;
  eligibility : string
}.

(* ================================================================== *)
(** * The labelling policy: [determine_eligibility] *)

Record criteria : Type := Criteria {
  min_income : Z;
  preferred_income : Z;
  min_credit : Z;
  preferred_credit : Z
}.

Definition loan_criteria : gmap string criteria :=
  <["Home Loan" := Criteria 50000 80000 640 700]>
  (<["Education Loan" := Criteria 30000 50000 620 680]>
  (<["Car Loan" := Criteria 25000 40000 600 660]> ∅)).

(** The three "automatic rejection" tests, in source order. *)
Definition automatic_rejection (c : criteria) (r : row) : bool :=
  if credit_score r <? min_credit c then true
  else if String.eqb (employment_status r) "Unemployed"
          && negb (String.eqb (loan_type r) "Education Loan") then true
  else if Qlt_bool (income r) (inject_Z (min_income c)) then true
  else false.

(** The "automatic approval" test. *)
Definition automatic_approval (c : criteria) (r : row) : bool :=
  (credit_score r >=? preferred_credit c)
  && Qle_bool (inject_Z (preferred_income c) * 1.5) (income r)
  && String.eqb (employment_status r) "Employed".

(** The score of the borderline branch, accumulated in floats as in the
    source; [0.5] is a float, [0.3] stands for the float nearest to it.
    The difference of the two integer credit scores is exact. *)
Definition borderline_score (c : criteria) (r : row) : Q :=
  let score := 0%Q in
  let score :=
    float_add score (float_div (inject_Z (credit_score r - min_credit c)) 200) in
  let score :=
    float_add score
      (float_div (float_sub (income r) (inject_Z (min_income c)))
         (inject_Z (min_income c))) in
  if String.eqb (employment_status r) "Employed" then float_add score 0.5
  else if String.eqb (employment_status r) "Self-employed" then
    float_add score (round_binary64 0.3)
  else score.

Definition determine_eligibility (r : row) : result string :=
  match loan_criteria !! loan_type r with
  | None => raise (KeyError (loan_type r))
  | Some c =>
      if automatic_rejection c r then ok "Not Eligible"
      else if automatic_approval c r then ok "Eligible"
      else if Qlt_bool 1 (borderline_score c r) then ok "Eligible"
      else ok "Not Eligible"
  end.

(* ================================================================== *)
(** * The derived feature: [_calculate_income_ratio] *)

Definition typical_loan_amounts : gmap string Z :=
  <["Home Loan" := 250000]>
  (<["Education Loan" := 50000]>
  (<["Car Loan" := 35000]> ∅)).

(** [typical_loan_amounts.get(loan_type, 50000)] *)
Definition _calculate_income_ratio (income : Q) (loan_type : string) : Q :=
  let amount : Z := default 50000 (typical_loan_amounts !! loan_type) in
  (income / inject_Z amount)%Q.

(* ================================================================== *)
(** * numpy's global random generator *)

(** [np.random] keeps one global generator.  Its state is [rng];
    [np.random.seed(s)] replaces the state, whatever it was, by the one
    that [s] determines ([seed_resets]), and every sampler returns its
    draws with the advanced state.
    The laws are numpy's documented ones: a sampler called with
    [size=n] returns [n] values, and [choice] draws from the array it is
    given. *)
Class NumpyRandom : Type := {
  rng : Type;
  np_random_seed : Z → rng → rng;
  np_random_lognormal : Q → Q → nat → rng → list Q * rng;
  np_random_normal : Q → Q → nat → rng → list Q * rng;
  np_random_choice : list string → list Q → nat → rng → list string * rng;
  seed_resets : ∀ s g g', np_random_seed s g = np_random_seed s g';
  lognormal_size : ∀ mean sigma size g,
    length (np_random_lognormal mean sigma size g).1 = size;
  normal_size : ∀ loc scale size g,
    length (np_random_normal loc scale size g).1 = size;
  choice_size : ∀ a p size g,
    a ≠ [] → length (np_random_choice a p size g).1 = size;
  choice_elem : ∀ a p size g x,
    a ≠ [] → x ∈ (np_random_choice a p size g).1 → x ∈ a
}.

(** The four columns of [pd.DataFrame({...})], row by row. *)
Fixpoint DataFrame (income : list Q) (credit_score : list Z)
    (employment_status loan_type : list string) : list row :=
  match income, credit_score, employment_status, loan_type with
  | i :: incs, c :: cs, e :: es, l :: ls =>
      Row i c e l :: DataFrame incs cs es ls
  | _, _, _, _ => []
  end.

Section Generator.
Context `{NumpyRandom}.

(** [generate_loan_data(num_samples)], run with the global generator in
    state [g0]; returns the labelled frame (or the exception of
    [df.apply]) and the generator's final state. *)
Definition generate_loan_data (num_samples : nat) (g0 : rng)
    : result (list labeled_row) * rng :=
  let g := np_random_seed 42 g0 in
  let '(income, g) := np_random_lognormal 11 0.5 num_samples g in
  let income := np_clip 20000 500000 <$> income in
  let '(credit_score, g) := np_random_normal 680 80 num_samples g in
  let credit_score := (λ x, astype_int (np_clip 300 850 x)) <$> credit_score in
  let '(employment_status, g) :=
    np_random_choice ["Employed"; "Self-employed"; "Unemployed"]
      [0.75; 0.20; 0.05]%Q num_samples g in
  let '(loan_type, g) :=
    np_random_choice ["Home Loan"; "Education Loan"; "Car Loan"]
      [0.35; 0.25; 0.40]%Q num_samples g in
  let df := DataFrame income credit_score employment_status loan_type in
  (let! labels := result_mapM determine_eligibility df in
   ok (zip_with LabeledRow df labels), g).
End Generator.

(* ================================================================== *)
(** * scikit-learn's [LabelEncoder] *)

(** [np.unique]: the distinct values in ascending order. *)
Fixpoint insert_unique (s : string) (l : list string) : list string :=
  match l with
  | [] => [s]
  | x :: l' =>
      match String.compare s x with
      | Lt => s :: x :: l'
      | Eq => x :: l'
      | Gt => x :: insert_unique s l'
      end
  end.

Definition np_unique (y : list string) : list string :=
  foldr insert_unique [] y.

Fixpoint index_of (s : string) (classes : list string) : option Z :=
  match classes with
  | [] => None
  | x :: classes' =>
      if String.eqb s x then Some 0 else Z.succ <$> index_of s classes'
  end.

(** A [LabelEncoder] object; [classes_] is absent until [fit]. *)
Record LabelEncoder : Type := MkLabelEncoder {
  classes_ : option (list string)
}.

Definition LabelEncoder_new : LabelEncoder := MkLabelEncoder None.

(** [enc.fit(y)]: stores the sorted distinct labels, whatever [enc] held. *)
Definition le_fit (enc : LabelEncoder) (y : list string) : LabelEncoder :=
  MkLabelEncoder (Some (np_unique y)).

(** [enc.transform(y)]: the index of every label in [classes_]; a label
    that is not there raises [ValueError]. *)
Definition le_transform (enc : LabelEncoder) (y : list string)
    : result (list Z) :=
  match classes_ enc with
  | None => raise (NotFittedError "This LabelEncoder instance is not fitted yet.")
  | Some classes =>
      result_mapM (λ s, match index_of s classes with
                 | Some i => ok i
                 | None => raise (ValueError "y contains previously unseen labels")
                 end) y
  end.

(** [enc.fit_transform(y)]: [np.unique(y, return_inverse=True)]. *)
Definition le_fit_transform (enc : LabelEncoder) (y : list string)
    : LabelEncoder * list Z :=
  let classes := np_unique y in
  (MkLabelEncoder (Some classes), (λ s, default 0 (index_of s classes)) <$> y).

(** [enc.inverse_transform(y)]: an index outside [classes_] raises
    [ValueError]. *)
Definition le_inverse_transform (enc : LabelEncoder) (y : list Z)
    : result (list string) :=
  match classes_ enc with
  | None => raise (NotFittedError "This LabelEncoder instance is not fitted yet.")
  | Some classes =>
      result_mapM (λ i, if (0 <=? i) && (i <? Z.of_nat (length classes)) then
                   match classes !! Z.to_nat i with
                   | Some s => ok s
                   | None => raise (ValueError "y contains previously unseen labels")
                   end
                 else raise (ValueError "y contains previously unseen labels")) y
  end.

(* ================================================================== *)
(** * The scikit-learn estimators used by the pipeline *)

(** The columns [features] of the processed frame, in the order
    income, credit_score, employment_status, loan_type,
    income_to_loan_ratio. *)
Record features : Type := Features {
  f_income : Q;
  f_credit_score : Q;
  f_employment_status : Z;
  f_loan_type : Z;
  f_income_to_loan_ratio : Q
}.

(** The three numerical columns handed to the scaler. *)
Definition numerical : Type := (Q * Q * Q)%type.

(** [StandardScaler], [RandomForestClassifier] and the shuffling of
    [train_test_split] are library code.  The laws are the documented
    behaviour the pipeline relies on: fitting succeeds on a non-empty
    sample, a fitted classifier answers a non-empty query row for row,
    the test share of a non-empty sample is not empty and, from two
    samples on, leaves a non-empty training set, and the shuffle is a
    permutation of the row positions. *)
Class Sklearn : Type := {
  StandardScaler : Type;
  StandardScaler_new : StandardScaler;
  scaler_fit_transform :
    StandardScaler → list numerical → result (StandardScaler * list numerical);
  scaler_transform : StandardScaler → list numerical → result (list numerical);
  RandomForestClassifier : Type;
  RandomForestClassifier_new : RandomForestClassifier;
  rf_fit :
    RandomForestClassifier → list features → list Z → result RandomForestClassifier;
  rf_predict : RandomForestClassifier → list features → result (list Z);
  rf_predict_proba :
    RandomForestClassifier → list features → result (list (list Q));
  (** [ceil(0.2 * n)] as [train_test_split] computes it *)
  n_test_of : nat → nat;
  (** [RandomState(42).permutation(n)] *)
  split_permutation : nat → list nat;

  scaler_fit_transform_ok : ∀ s X,
    X ≠ [] → ∃ s' Y, scaler_fit_transform s X = inr (s', Y) ∧ length Y = length X;
  rf_fit_ok : ∀ m X y,
    X ≠ [] → length X = length y → ∃ m', rf_fit m X y = inr m';
  rf_predict_ok : ∀ m X y m' X',
    rf_fit m X y = inr m' → X' ≠ [] →
    ∃ p, rf_predict m' X' = inr p ∧ length p = length X';
  n_test_of_pos : ∀ n, (1 ≤ n)%nat → (1 ≤ n_test_of n)%nat;
  n_test_of_lt : ∀ n, (2 ≤ n)%nat → (n_test_of n < n)%nat;
  split_permutation_perm : ∀ n, split_permutation n ≡ₚ seq 0 n
}.

(** joblib's persistence, as library code: [joblib.dump(value, filepath)]
    writes a file or raises, [joblib.load(filepath)] reads one or
    raises.  The one law is the fidelity of pickling: a file that [dump]
    has written loads as the object that was dumped. *)
Class Joblib (A : Type) : Type := {
  file_system : Type;
  joblib_dump : A → string → file_system → result file_system;
  joblib_load : string → file_system → result A;
  joblib_load_dump : ∀ value filepath fs fs',
    joblib_dump value filepath fs = inr fs' →
    joblib_load filepath fs' = inr value
}.

Section Pipeline.
Context `{Sklearn}.

(** [X.iloc[indices]] *)
Definition take_rows {A} (X : list A) (indices : list nat) : result (list A) :=
  result_mapM (λ i, match X !! i with
             | Some x => ok x
             | None => raise (IndexError "positional indexers are out-of-bounds")
             end) indices.

(** [train_test_split(X, y, test_size=0.2, random_state=42)] *)
Definition train_test_split {A B} (X : list A) (y : list B)
    : result (list A * list A * list B * list B) :=
  let n_samples := length X in
  let n_test := n_test_of n_samples in
  let n_train := (n_samples - n_test)%nat in
  if (n_train =? 0)%nat then
    raise (ValueError "the resulting train set will be empty")
  else
    let permutation := split_permutation n_samples in
    let ind_test := take n_test permutation in
    let ind_train := take n_train (drop n_test permutation) in
    let! X_train := take_rows X ind_train in
    let! X_test := take_rows X ind_test in
    let! y_train := take_rows y ind_train in
    let! y_test := take_rows y ind_test in
    ok (X_train, X_test, y_train, y_test).

(** The instance attributes of [LoanEligibilityModel]. *)
Record LoanEligibilityModel : Type := MkModel {
  model : RandomForestClassifier;
  scaler : StandardScaler;
  label_encoders : gmap string LabelEncoder;
  target_encoder : LabelEncoder
}.

(** [LoanEligibilityModel()] *)
Definition __init__ : LoanEligibilityModel :=
  MkModel RandomForestClassifier_new StandardScaler_new ∅ LabelEncoder_new.

Definition set_model (self : LoanEligibilityModel) m : LoanEligibilityModel :=
  MkModel m (scaler self) (label_encoders self) (target_encoder self).
Definition set_scaler (self : LoanEligibilityModel) s : LoanEligibilityModel :=
  MkModel (model self) s (label_encoders self) (target_encoder self).
Definition set_label_encoders (self : LoanEligibilityModel) e
    : LoanEligibilityModel :=
  MkModel (model self) (scaler self) e (target_encoder self).
Definition set_target_encoder (self : LoanEligibilityModel) t
    : LoanEligibilityModel :=
  MkModel (model self) (scaler self) (label_encoders self) t.

(** One turn of [for column in categorical_columns]. *)
Definition encode_column (self : LoanEligibilityModel) (column : string)
    (values : list string) (training : bool)
    : result (LoanEligibilityModel * list Z) :=
  if training then
    let '(enc, codes) := le_fit_transform LabelEncoder_new values in
    ok (set_label_encoders self (<[column := enc]> (label_encoders self)), codes)
  else
    match label_encoders self !! column with
    | None => raise (KeyError column)
    | Some enc =>
        let! codes := le_transform enc values in
        ok (self, codes)
    end.

(** Reassemble the processed frame from its columns. *)
Fixpoint processed_frame (scaled : list numerical)
    (employment_status loan_type : list Z) : list features :=
  match scaled, employment_status, loan_type with
  | (i, c, r) :: scaled', e :: es, l :: ls =>
      Features i c e l r :: processed_frame scaled' es ls
  | _, _, _ => []
  end.

Definition preprocess_data (self : LoanEligibilityModel) (df : list row)
    (training : bool) : result (LoanEligibilityModel * list features) :=
  let income_to_loan_ratio :=
    (λ x, _calculate_income_ratio (income x) (loan_type x)) <$> df in
  let! (self, employment) :=
    encode_column self "employment_status" (employment_status <$> df) training in
  let! (self, loan) :=
    encode_column self "loan_type" (loan_type <$> df) training in
  let numerical_columns :=
    zip_with (λ x r, (income x, inject_Z (credit_score x), r))
      df income_to_loan_ratio in
  let! (self, scaled) :=
    (if training then
       let! (s, scaled) := scaler_fit_transform (scaler self) numerical_columns in
       ok (set_scaler self s, scaled)
     else
       let! scaled := scaler_transform (scaler self) numerical_columns in
       ok (self, scaled)) in
  ok (self, processed_frame scaled employment loan).

(** [train(df)]: returns the updated [self] with
    [(X_test, y_test, self.model.predict(X_test))]. *)
Definition train (self : LoanEligibilityModel) (df : list labeled_row)
    : result (LoanEligibilityModel * (list features * list Z * list Z)) :=
  let! (self, df_processed) := preprocess_data self (applicant <$> df) true in
  let X := df_processed in
  let self :=
    set_target_encoder self
      (le_fit (target_encoder self) ["Not Eligible"; "Eligible"]) in
  let! y := le_transform (target_encoder self) (eligibility <$> df) in
  let! (X_train, X_test, y_train, y_test) := train_test_split X y in
  let! m := rf_fit (model self) X_train y_train in
  let self := set_model self m in
  let! y_pred := rf_predict (model self) X_test in
  ok (self, (X_test, y_test, y_pred)).

(** The "strict rejection criteria" of [_apply_custom_rules]. *)
Definition strict_rejection (r : row) : bool :=
  (credit_score r <? 500)
  || (String.eqb (employment_status r) "Unemployed"
      && String.eqb (loan_type r) "Home Loan")
  || (Qlt_bool (income r) 25000 && String.eqb (loan_type r) "Home Loan").

(** The "automatic approval for exceptional cases". *)
Definition exceptional_approval (r : row) : bool :=
  (credit_score r >? 800)
  && Qlt_bool 150000 (income r)
  && String.eqb (employment_status r) "Employed".

(** [self.target_encoder.transform([label])[0]] *)
Definition target_code (self : LoanEligibilityModel) (label : string)
    : result Z :=
  let! codes := le_transform (target_encoder self) [label] in
  match codes with
  | code :: _ => ok code
  | [] => raise (IndexError "index 0 is out of bounds")
  end.

(** The body of [for i, (pred, row) in enumerate(zip(predictions,
    df.iterrows()))], from position [i] on; [predictions] is the array
    being overwritten in place. *)
Fixpoint apply_rules_from (self : LoanEligibilityModel) (i : nat)
    (items : list (Z * row)) (predictions : list Z) : result (list Z) :=
  match items with
  | [] => ok predictions
  | (pred, r) :: items' =>
      let! predictions :=
        (if strict_rejection r then
           let! code := target_code self "Not Eligible" in
           ok (<[i := code]> predictions)
         else if exceptional_approval r then
           let! code := target_code self "Eligible" in
           ok (<[i := code]> predictions)
         else ok predictions) in
      apply_rules_from self (S i) items' predictions
  end.

Definition _apply_custom_rules (self : LoanEligibilityModel) (df : list row)
    (predictions : list Z) : result (list Z) :=
  apply_rules_from self 0 (zip predictions df) predictions.

Definition predict (self : LoanEligibilityModel) (df : list row)
    : result (list string * list (list Q)) :=
  let! (_, df_processed) := preprocess_data self df false in
  let X := df_processed in
  let! predictions := rf_predict (model self) X in
  let! prediction_proba := rf_predict_proba (model self) X in
  let! predictions := _apply_custom_rules self df predictions in
  let! prediction_labels :=
    le_inverse_transform (target_encoder self) predictions in
  ok (prediction_labels, prediction_proba).

(** The dictionary that [save_model] hands to [joblib.dump]. *)
Record model_data : Type := ModelData {
  md_model : RandomForestClassifier;
  md_scaler : StandardScaler;
  md_label_encoders : gmap string LabelEncoder;
  md_target_encoder : LabelEncoder
}.

Context {joblib : Joblib model_data}.

(** [save_model(filepath)]: returns the file system that [joblib.dump]
    leaves, or its exception. *)
Definition save_model (self : LoanEligibilityModel) (filepath : string)
    (fs : file_system) : result file_system :=
  let model_data :=
    ModelData (model self) (scaler self) (label_encoders self)
      (target_encoder self) in
  joblib_dump model_data filepath fs.

(** [LoanEligibilityModel.load_model(filepath)] *)
Definition load_model (filepath : string) (fs : file_system)
    : result LoanEligibilityModel :=
  let! model_data := joblib_load filepath fs in
  let loan_model := __init__ in
  let loan_model := set_model loan_model (md_model model_data) in
  let loan_model := set_scaler loan_model (md_scaler model_data) in
  let loan_model :=
    set_label_encoders loan_model (md_label_encoders model_data) in
  let loan_model :=
    set_target_encoder loan_model (md_target_encoder model_data) in
  ok loan_model.
End Pipeline.

(* ================================================================== *)
(** * The properties, as the specification words them *)

(** ** The policy as the specification words it *)

Definition employment_bonus (status : string) : Q :=
  if String.eqb status "Employed" then 0.5%Q
  else if String.eqb status "Self-employed" then 0.3%Q
  else 0%Q.

Definition hard_reject (c : criteria) (r : row) : Prop :=
  credit_score r < min_credit c
  ∨ (employment_status r = "Unemployed" ∧ loan_type r ≠ "Education Loan")
  ∨ (income r < inject_Z (min_income c))%Q.

Definition hard_accept (c : criteria) (r : row) : Prop :=
  preferred_credit c ≤ credit_score r
  ∧ (1.5 * inject_Z (preferred_income c) <= income r)%Q
  ∧ employment_status r = "Employed".

(** The score in exact arithmetic. *)
Definition policy_score (c : criteria) (r : row) : Q :=
  (inject_Z (credit_score r - min_credit c) / 200
   + (income r - inject_Z (min_income c)) / inject_Z (min_income c)
   + employment_bonus (employment_status r))%Q.

(** The same formula evaluated in binary64, every operation rounded. *)
Definition computed_policy_score (c : criteria) (r : row) : Q :=
  float_add
    (float_add
       (float_div (inject_Z (credit_score r - min_credit c)) 200)
       (float_div (float_sub (income r) (inject_Z (min_income c)))
          (inject_Z (min_income c))))
    (round_binary64 (employment_bonus (employment_status r))).

(** Reject, then accept, then the computed score. *)
Definition labeled_by_policy (c : criteria) (r : row) (label : string) : Prop :=
  (hard_reject c r → label = "Not Eligible")
  ∧ (¬ hard_reject c r → hard_accept c r → label = "Eligible")
  ∧ (¬ hard_reject c r → ¬ hard_accept c r →
     (label = "Eligible" ∨ label = "Not Eligible")
     ∧ (label = "Eligible" ↔ (1 < computed_policy_score c r)%Q)).

(** ** The overrides as the specification words them *)

Definition override_reject (r : row) : Prop :=
  credit_score r < 500
  ∨ (employment_status r = "Unemployed" ∧ loan_type r = "Home Loan")
  ∨ ((income r < 25000)%Q ∧ loan_type r = "Home Loan").

Definition override_accept (r : row) : Prop :=
  800 < credit_score r
  ∧ (150000 < income r)%Q
  ∧ employment_status r = "Employed".

Section Outcomes.
Context `{Sklearn}.

(** What the loop leaves at the position of row [r], where the
    classifier had put [p]. *)
Definition rule_code (reject approve : Z) (r : row) (p : Z) : Z :=
  if strict_rejection r then reject
  else if exceptional_approval r then approve
  else p.

(** The override layer leaves, at position [i], the index that the
    target encoder decodes to [label]. *)
Definition rule_output (self : LoanEligibilityModel) (df : list row)
    (predictions : list Z) (i : nat) (label : string) : Prop :=
  ∃ final code,
    _apply_custom_rules self df predictions = inr final
    ∧ length final = length predictions
    ∧ final !! i = Some code
    ∧ le_inverse_transform (target_encoder self) [code] = inr [label].

End Outcomes.

(** ** Sample corpora *)

(** The three test cases of the module's entry point, with labels, used
    as a small training corpus. *)
Definition demo_corpus : list labeled_row :=
  [ LabeledRow (Row 35000 580 "Unemployed" "Car Loan") "Not Eligible";
    LabeledRow (Row 150000 820 "Employed" "Home Loan") "Eligible";
    LabeledRow (Row 60000 700 "Self-employed" "Education Loan") "Eligible" ].

(** A corpus of two rows that are both Eligible. *)
Definition single_class_corpus : list labeled_row :=
  [ LabeledRow (Row 150000 820 "Employed" "Home Loan") "Eligible";
    LabeledRow (Row 60000 700 "Self-employed" "Education Loan") "Eligible" ].

(** An employed home-loan applicant whose income is the binary64 number
    next above 64000, that is 64000 + 2^-37, with credit score 684. *)
Definition rounding_row : row :=
  Row (8796093022208001 # 137438953472) 684 "Employed" "Home Loan".

(** ** The scoring branch on the kernel's binary64 numbers

    The same lines of [determine_eligibility], written with the
    primitive floats of the kernel, to compare [round_binary64] with an
    implementation of IEEE 754. *)

(** The rational value of a finite float. *)
Definition binary64_value (f : float) : option Q :=
  match Prim2SF f with
  | S754_zero _ => Some 0%Q
  | S754_finite s m e =>
      Some (inject_Z (if s then Z.neg m else Z.pos m) * 2 ^ e)%Q
  | _ => None
  end.

(** [float(n)] for an integer below [2^53] in absolute value. *)
Definition float_of_Z (n : Z) : float :=
  SF2Prim match n with
          | Z0 => S754_zero false
          | Zpos p => S754_finite false p 0
          | Zneg p => S754_finite true p 0
          end.

Definition borderline_score_binary64 (c : criteria) (credit : Z)
    (income : float) (status : string) : float :=
  let score := float_of_Z 0 in
  let score :=
    (score + float_of_Z (credit - min_credit c) / float_of_Z 200)%float in
  let score :=
    (score + (income - float_of_Z (min_income c)) / float_of_Z (min_income c))%float in
  if String.eqb status "Employed" then (score + 0.5)%float
  else if String.eqb status "Self-employed" then (score + 0.3)%float
  else score.

(** The two evaluations of the score give the same number. *)
Definition score_agrees (c : criteria) (credit : Z) (income : float)
    (status : string) : bool :=
  match binary64_value income,
        binary64_value (borderline_score_binary64 c credit income status) with
  | Some i, Some s => Qeq_bool s (borderline_score c (Row i credit status ""))
  | _, _ => false
  end.

(** Incomes around multiples of [min_income], each with its two
    neighbours in binary64, and credit scores around the thresholds. *)
Definition sample_incomes (c : criteria) : list float :=
  let m := float_of_Z (min_income c) in
  flat_map (λ x, [next_down x; x; next_up x])
    [m; (m * 1.1)%float; (m * 1.28)%float; (m * 1.5)%float;
     123456.789%float; 500000%float].

Definition sample_credits (c : criteria) : list Z :=
  (λ a, min_credit c + a) <$> [0; 44; 100; 101; 200].

Definition sample_scores_agree : bool :=
  forallb (λ c,
    forallb (λ status,
      forallb (λ credit,
        forallb (λ income, score_agrees c credit income status)
          (sample_incomes c))
        (sample_credits c))
      ["Employed"; "Self-employed"; "Unemployed"])
    [Criteria 50000 80000 640 700; Criteria 30000 50000 620 680;
     Criteria 25000 40000 600 660].

(* ================================================================== *)
(** * Reference implementations of the library interfaces

    Small executable stand-ins for numpy's generator and for the
    scikit-learn estimators.  They show that the interface laws can be
    met and let the pipeline be evaluated on concrete inputs. *)

(** A linear congruential generator. *)
Definition lcg_next (g : Z) : Z := (g * 1103515245 + 12345) mod 2147483648.

Fixpoint lcg_draws {A} (f : Z → A) (size : nat) (g : Z) : list A * Z :=
  match size with
  | O => ([], g)
  | S size' =>
      let g' := lcg_next g in
      let '(xs, g'') := lcg_draws f size' g' in
      (f g' :: xs, g'')
  end.

Definition lcg_choice (a : list string) (g : Z) : string :=
  match a with
  | [] => ""
  | x :: _ => default x (a !! Z.to_nat (g mod Z.of_nat (length a)))
  end.

Lemma lcg_draws_length {A} (f : Z → A) size g :
  length (lcg_draws f size g).1 = size.
Proof.
  revert g. induction size as [|size IH]; intros g; simpl; [done|].
  specialize (IH (lcg_next g)).
  destruct (lcg_draws f size (lcg_next g)) as [xs g'']. simpl in *. lia.
Qed.

Lemma lcg_draws_elem {A} (f : Z → A) size g x :
  x ∈ (lcg_draws f size g).1 → ∃ g', x = f g'.
Proof.
  revert g. induction size as [|size IH]; intros g; simpl.
  - intros Hx. by apply elem_of_nil in Hx.
  - specialize (IH (lcg_next g)).
    destruct (lcg_draws f size (lcg_next g)) as [xs g'']. simpl in *.
    intros [->|Hx]%elem_of_cons; eauto.
Qed.

Lemma lcg_choice_elem a g : a ≠ [] → lcg_choice a g ∈ a.
Proof.
  destruct a as [|x a]; [done|]. intros _. unfold lcg_choice.
  destruct ((x :: a) !! Z.to_nat (g mod Z.of_nat (length (x :: a)))) as [y|] eqn:Hy.
  - simpl. by eapply list_elem_of_lookup_2.
  - simpl. apply elem_of_cons. by left.
Qed.

#[refine] Instance lcg_numpy : NumpyRandom := {|
  rng := Z;
  np_random_seed := λ s _, s;
  np_random_lognormal := λ _ _ size g,
    lcg_draws (λ x, inject_Z (x mod 600000)) size g;
  np_random_normal := λ _ _ size g,
    lcg_draws (λ x, (inject_Z (2000 + x mod 7000) / 10)%Q) size g;
  np_random_choice := λ a _ size g, lcg_draws (lcg_choice a) size g
|}.
Proof.
  - done.
  - intros. apply lcg_draws_length.
  - intros. apply lcg_draws_length.
  - intros. apply lcg_draws_length.
  - intros a p size g x Ha [g' ->]%lcg_draws_elem. by apply lcg_choice_elem.
Defined.


(** A scaler that leaves the columns as they are and a classifier that
    always answers the first training label. *)
Definition unit_scaler_fit_transform (s : unit) (X : list numerical)
    : result (unit * list numerical) :=
  match X with
  | [] => raise (ValueError "Found array with 0 sample(s)")
  | _ => ok (tt, X)
  end.

Definition constant_fit (m : option Z) (X : list features) (y : list Z)
    : result (option Z) :=
  match y with
  | [] => raise (ValueError "Found array with 0 sample(s)")
  | label :: _ => ok (Some label)
  end.

Definition constant_predict (m : option Z) (X : list features) : result (list Z) :=
  match m with
  | None => raise (NotFittedError "This RandomForestClassifier instance is not fitted yet.")
  | Some label => ok ((λ _, label) <$> X)
  end.

Definition constant_predict_proba (m : option Z) (X : list features)
    : result (list (list Q)) :=
  match m with
  | None => raise (NotFittedError "This RandomForestClassifier instance is not fitted yet.")
  | Some label => ok ((λ _, if label =? 0 then [1; 0] else [0; 1])%Q <$> X)
  end.

#[refine] Instance constant_sklearn : Sklearn := {|
  StandardScaler := unit;
  StandardScaler_new := tt;
  scaler_fit_transform := unit_scaler_fit_transform;
  scaler_transform := λ _ X, ok X;
  RandomForestClassifier := option Z;
  RandomForestClassifier_new := None;
  rf_fit := constant_fit;
  rf_predict := constant_predict;
  rf_predict_proba := constant_predict_proba;
  n_test_of := λ n, ((n + 4) / 5)%nat;
  split_permutation := λ n, seq 0 n
|}.
Proof.
  - intros s X HX. destruct X as [|x X]; [done|]. by exists tt, (x :: X).
  - intros m X y HX Hlen. destruct y as [|l y].
    + destruct X; [done|discriminate].
    + by exists (Some l).
  - intros m X y m' X' Hfit _. destruct y as [|l y]; simpl in Hfit; [done|].
    injection Hfit as <-. exists ((λ _, l) <$> X'). split; [done|].
    by rewrite length_fmap.
  - intros n Hn. apply Nat.div_le_lower_bound; lia.
  - intros n Hn. apply Nat.Div0.div_lt_upper_bound. lia.
  - done.
Defined.

(** An in-memory file system: a file holds the dumped object; writing to
    the empty path fails, as [open] does. *)
#[refine] Instance memory_joblib (A : Type) : Joblib A := {|
  file_system := gmap string A;
  joblib_dump := λ value filepath fs,
    if String.eqb filepath "" then raise (FileNotFoundError filepath)
    else ok (<[filepath := value]> fs);
  joblib_load := λ filepath fs,
    match fs !! filepath with
    | Some value => ok value
    | None => raise (FileNotFoundError filepath)
    end
|}.
Proof.
  intros value filepath fs fs'. destruct (String.eqb filepath ""); [done|].
  intros [= <-]. by rewrite lookup_insert_eq.
Defined.

(* ================================================================== *)
(** * Facts about the helpers *)

Lemma Qlt_bool_iff (x y : Q) : Qlt_bool x y = true ↔ (x < y)%Q.
Proof.
  unfold Qlt_bool. rewrite negb_true_iff. split.
  - intros Hb. apply Qnot_le_lt. intros Hle%Qle_bool_iff. congruence.
  - intros Hlt. destruct (Qle_bool y x) eqn:Hb; [|done].
    apply Qle_bool_iff in Hb. by apply Qlt_not_le in Hlt.
Qed.

Lemma Qlt_bool_false (x y : Q) : Qlt_bool x y = false ↔ ¬ (x < y)%Q.
Proof. rewrite <- Qlt_bool_iff. by destruct (Qlt_bool x y). Qed.

Section result_mapM.
Context {A B : Type} (f : A → result B).

Lemma result_mapM_ok l :
  (∀ x, x ∈ l → ∃ y, f x = inr y) →
  ∃ k, result_mapM f l = inr k ∧ length k = length l.
Proof.
  induction l as [|a l IH]; intros Hok; simpl.
  - by exists [].
  - destruct (Hok a) as [b Hb]; [by left|].
    destruct IH as (k & Hk & Hlen); [intros x Hx; apply Hok; by right|].
    exists (b :: k). rewrite Hb, Hk. simpl. by rewrite Hlen.
Qed.

Lemma result_mapM_lookup l k i x :
  result_mapM f l = inr k → l !! i = Some x →
  ∃ y, f x = inr y ∧ k !! i = Some y.
Proof.
  revert k i. induction l as [|a l IH]; intros k i Hk Hx; [done|].
  simpl in Hk. destruct (f a) as [e|b] eqn:Hb; [done|]. simpl in Hk.
  destruct (result_mapM f l) as [e|k'] eqn:Hk'; [done|].
  injection Hk as <-. destruct i as [|i]; simpl in *.
  - injection Hx as <-. eauto.
  - by apply IH.
Qed.

Lemma result_mapM_length l k : result_mapM f l = inr k → length k = length l.
Proof.
  revert k. induction l as [|a l IH]; intros k Hk; simpl in Hk.
  - by injection Hk as <-.
  - destruct (f a) as [e|b]; [done|]. simpl in Hk.
    destruct (result_mapM f l) as [e|k']; [done|].
    injection Hk as <-. simpl. by rewrite (IH k').
Qed.

(** When every failure of [f] has class [cls], one failing element makes
    the traversal fail with that class. *)
Lemma result_mapM_raises l cls :
  (∀ x e, f x = inl e → exn_class e = cls) →
  (∃ x e, x ∈ l ∧ f x = inl e) →
  raises (result_mapM f l) cls.
Proof.
  intros Hcls. induction l as [|a l IH]; intros (x & e & Hx & He).
  - by apply elem_of_nil in Hx.
  - simpl. destruct (f a) as [e'|b] eqn:Ha.
    + exists e'. split; [done|]. by eapply Hcls.
    + apply elem_of_cons in Hx as [->|Hx]; [congruence|].
      destruct IH as (e' & He' & Hc); [by eauto|].
      exists e'. simpl. by rewrite He'.
Qed.
Lemma result_mapM_elem l k y :
  result_mapM f l = inr k → y ∈ k → ∃ x, x ∈ l ∧ f x = inr y.
Proof.
  revert k. induction l as [|a l IH]; intros k Hk Hy; simpl in Hk.
  - injection Hk as <-. by apply elem_of_nil in Hy.
  - destruct (f a) as [e|b] eqn:Hb; [done|]. simpl in Hk.
    destruct (result_mapM f l) as [e|k'] eqn:Hk'; [done|].
    injection Hk as <-. apply elem_of_cons in Hy as [->|Hy].
    + exists a. split; [by left|done].
    + destruct (IH k' eq_refl Hy) as (x & Hx & Hfx).
      exists x. split; [by right|done].
Qed.
End result_mapM.

Lemma elem_of_insert_unique (x s : string) (l : list string) :
  x ∈ insert_unique s l ↔ x = s ∨ x ∈ l.
Proof.
  induction l as [|a l IH]; simpl.
  - rewrite list_elem_of_singleton, elem_of_nil. tauto.
  - destruct (String.compare s a) eqn:Hc.
    + apply String.compare_eq_iff in Hc as ->.
      rewrite elem_of_cons. tauto.
    + rewrite !elem_of_cons. tauto.
    + rewrite !elem_of_cons, IH. tauto.
Qed.

Lemma elem_of_np_unique (x : string) (y : list string) :
  x ∈ np_unique y ↔ x ∈ y.
Proof.
  unfold np_unique. induction y as [|a y IH]; simpl; [done|].
  rewrite elem_of_insert_unique, IH, elem_of_cons. tauto.
Qed.

Lemma index_of_None (s : string) (classes : list string) :
  index_of s classes = None ↔ s ∉ classes.
Proof.
  induction classes as [|a classes IH]; simpl.
  - split; [intros _; apply not_elem_of_nil|done].
  - rewrite not_elem_of_cons. destruct (String.eqb s a) eqn:Heq.
    + apply String.eqb_eq in Heq. split; [done|]. intros []. done.
    + apply String.eqb_neq in Heq.
      destruct (index_of s classes); simpl; split; try done.
      * intros [_ Hn]. by apply IH in Hn.
      * intros _. split; [done|]. by apply IH.
Qed.

(** [transform] fails with [ValueError] as soon as one label was not seen
    by [fit]. *)
Lemma le_transform_unseen (seen y : list string) (s : string) :
  s ∈ y → s ∉ seen →
  raises (le_transform (MkLabelEncoder (Some (np_unique seen))) y) "ValueError".
Proof.
  intros Hy Hs. unfold le_transform. simpl.
  apply result_mapM_raises.
  - intros x e. destruct (index_of x (np_unique seen)); [done|].
    by intros [= <-].
  - exists s. eexists. split; [done|].
    assert (index_of s (np_unique seen) = None) as ->; [|done].
    apply index_of_None. by rewrite elem_of_np_unique.
Qed.

Lemma le_transform_seen (seen y : list string) :
  (∀ s, s ∈ y → s ∈ seen) →
  ∃ codes, le_transform (MkLabelEncoder (Some (np_unique seen))) y = inr codes
           ∧ length codes = length y.
Proof.
  intros Hy. unfold le_transform. simpl. apply result_mapM_ok.
  intros s Hs. destruct (index_of s (np_unique seen)) as [i|] eqn:Hi; [by eauto|].
  apply index_of_None in Hi. rewrite elem_of_np_unique in Hi.
  destruct Hi. by apply Hy.
Qed.

Lemma loan_criteria_inv (t : string) (c : criteria) :
  loan_criteria !! t = Some c →
  (t = "Home Loan" ∧ c = Criteria 50000 80000 640 700)
  ∨ (t = "Education Loan" ∧ c = Criteria 30000 50000 620 680)
  ∨ (t = "Car Loan" ∧ c = Criteria 25000 40000 600 660).
Proof.
  unfold loan_criteria. intros Hc.
  apply lookup_insert_Some in Hc as [[<- <-]|[_ Hc]]; [by left|].
  apply lookup_insert_Some in Hc as [[<- <-]|[_ Hc]]; [by right; left|].
  apply lookup_insert_Some in Hc as [[<- <-]|[_ Hc]]; [by right; right|].
  by rewrite lookup_empty in Hc.
Qed.

(* ================================================================== *)
(** * Facts about binary64 rounding *)

Lemma two_power_pos (k : Z) : (0 < 2 ^ k)%Q.
Proof. by apply Qpower_0_lt. Qed.

Lemma two_power_lt (j k : Z) : j < k → (2 ^ j < 2 ^ k)%Q.
Proof. intros H. by apply Qpower_lt_compat_l. Qed.

Lemma two_power_le (j k : Z) : j ≤ k → (2 ^ j <= 2 ^ k)%Q.
Proof. intros H. by apply Qpower_le_compat_l. Qed.

Lemma two_power_succ (k : Z) : (2 ^ (k + 1) == 2 * 2 ^ k)%Q.
Proof. rewrite Qpower_plus by done. change (2 ^ 1)%Q with 2%Q. ring. Qed.

Lemma two_power_Z (k : Z) : 0 ≤ k → (2 ^ k == inject_Z (2 ^ k))%Q.
Proof. intros H. by rewrite Zpower_Qpower. Qed.

Lemma Qlog2_spec (q : Q) :
  (0 < q)%Q → (2 ^ Qlog2 q <= q)%Q ∧ (q < 2 ^ (Qlog2 q + 1))%Q.
Proof.
  intros Hq. destruct q as [n d]. unfold Qlog2. cbn [Qnum Qden].
  assert (0 < n) as Hn. { unfold Qlt in Hq. simpl in Hq. lia. }
  set (ln := Z.log2 n). set (ld := Z.log2 (Z.pos d)).
  destruct (Z.log2_spec n Hn) as [Hn1 Hn2]. fold ln in Hn1, Hn2.
  destruct (Z.log2_spec (Z.pos d) ltac:(lia)) as [Hd1 Hd2]. fold ld in Hd1, Hd2.
  assert (0 ≤ ln) as Hln by apply Z.log2_nonneg.
  assert (0 ≤ ld) as Hld by apply Z.log2_nonneg.
  assert (n # d == inject_Z n / inject_Z (Z.pos d))%Q as Hnd by apply Qmake_Qdiv.
  assert (0 < inject_Z (Z.pos d))%Q as Hdpos by done.
  assert (2 ^ ln <= inject_Z n)%Q as Q1.
  { rewrite two_power_Z by done. by rewrite <- Zle_Qle. }
  assert (inject_Z n < 2 ^ (ln + 1))%Q as Q2.
  { rewrite two_power_Z by lia. by rewrite <- Zlt_Qlt. }
  assert (2 ^ ld <= inject_Z (Z.pos d))%Q as Q3.
  { rewrite two_power_Z by done. by rewrite <- Zle_Qle. }
  assert (inject_Z (Z.pos d) < 2 ^ (ld + 1))%Q as Q4.
  { rewrite two_power_Z by lia. by rewrite <- Zlt_Qlt. }
  assert (n # d < 2 ^ (ln - ld + 1))%Q as Hupper.
  { rewrite Hnd. apply Qlt_shift_div_r; [done|].
    assert (2 ^ (ln - ld + 1) * 2 ^ ld == 2 ^ (ln + 1))%Q as Heq.
    { rewrite <- Qpower_plus by done. by replace (ln - ld + 1 + ld) with (ln + 1) by lia. }
    pose proof (two_power_pos (ln - ld + 1)) as Hpos.
    set (E := (2 ^ (ln - ld + 1))%Q) in *. set (Y := (2 ^ ld)%Q) in *.
    set (X := (2 ^ (ln + 1))%Q) in *. set (N := inject_Z n) in *.
    set (D := inject_Z (Z.pos d)) in *. nra. }
  assert (2 ^ (ln - ld - 1) <= n # d)%Q as Hlower.
  { rewrite Hnd. apply Qle_shift_div_l; [done|].
    assert (2 ^ (ln - ld - 1) * 2 ^ (ld + 1) == 2 ^ ln)%Q as Heq.
    { rewrite <- Qpower_plus by done. by replace (ln - ld - 1 + (ld + 1)) with ln by lia. }
    pose proof (two_power_pos (ln - ld - 1)) as Hpos.
    set (E := (2 ^ (ln - ld - 1))%Q) in *. set (Y := (2 ^ (ld + 1))%Q) in *.
    set (X := (2 ^ ln)%Q) in *. set (N := inject_Z n) in *.
    set (D := inject_Z (Z.pos d)) in *. nra. }
  destruct (Qle_bool (2 ^ (ln - ld)) (n # d)) eqn:Hb.
  - apply Qle_bool_iff in Hb. done.
  - split; [done|]. replace (ln - ld - 1 + 1) with (ln - ld) by lia.
    apply Qnot_le_lt. intros Hle%Qle_bool_iff. congruence.
Qed.

Lemma Qlog2_unique (q : Q) (k : Z) :
  (2 ^ k <= q)%Q → (q < 2 ^ (k + 1))%Q → Qlog2 q = k.
Proof.
  intros H1 H2.
  assert (0 < q)%Q as Hq. { eapply Qlt_le_trans; [apply (two_power_pos k)|done]. }
  destruct (Qlog2_spec q Hq) as [H3 H4].
  assert (2 ^ k < 2 ^ (Qlog2 q + 1))%Q as Ha by (eapply Qle_lt_trans; eauto).
  assert (2 ^ Qlog2 q < 2 ^ (k + 1))%Q as Hb by (eapply Qle_lt_trans; eauto).
  apply Qpower_lt_compat_l_inv in Ha; [|done].
  apply Qpower_lt_compat_l_inv in Hb; [|done]. lia.
Qed.

Lemma round_half_even_bounds (q : Q) :
  Qfloor q ≤ round_half_even q ≤ Qfloor q + 1.
Proof.
  unfold round_half_even.
  destruct (Qcompare _ _); [destruct (Z.even _)| |]; lia.
Qed.

Lemma round_half_even_Z (n : Z) : round_half_even (inject_Z n) = n.
Proof.
  unfold round_half_even. rewrite Qfloor_Z.
  assert (Qcompare (inject_Z n - inject_Z n) 0.5%Q = Lt) as ->; [|done].
  apply Qlt_alt.
  assert (inject_Z n - inject_Z n == 0)%Q as -> by ring. reflexivity.
Qed.

Lemma round_half_even_comp (s t : Q) :
  (s == t)%Q → round_half_even s = round_half_even t.
Proof.
  intros Heq. unfold round_half_even.
  rewrite (Qfloor_comp _ _ Heq).
  assert (s - inject_Z (Qfloor t) == t - inject_Z (Qfloor t))%Q as -> by (by rewrite Heq).
  done.
Qed.

Lemma round_half_even_monotone (s t : Q) :
  (s <= t)%Q → round_half_even s ≤ round_half_even t.
Proof.
  intros Hle. pose proof (Qfloor_resp_le _ _ Hle) as Hfloor.
  pose proof (round_half_even_bounds s) as Hs.
  pose proof (round_half_even_bounds t) as Ht.
  destruct (decide (Qfloor s = Qfloor t)) as [Heq|Hne]; [|lia].
  unfold round_half_even in *. rewrite <- Heq in *.
  set (f := Qfloor s) in *.
  destruct (Qcompare_spec (s - inject_Z f) 0.5%Q) as [Hs1|Hs1|Hs1];
    destruct (Qcompare_spec (t - inject_Z f) 0.5%Q) as [Ht1|Ht1|Ht1];
    try lia; try (destruct (Z.even f); lia); exfalso; lra.
Qed.

Lemma round_half_even_nonneg (q : Q) : (0 <= q)%Q → 0 ≤ round_half_even q.
Proof.
  intros Hq. rewrite <- (round_half_even_Z 0).
  by apply round_half_even_monotone.
Qed.

Lemma binary64_exponent_pos (q : Q) (k : Z) :
  (2 ^ k <= q)%Q → (q < 2 ^ (k + 1))%Q →
  binary64_exponent q = Z.max (k - 52) (-1074).
Proof.
  intros H1 H2. unfold binary64_exponent.
  assert (0 < q)%Q as Hq. { eapply Qlt_le_trans; [apply (two_power_pos k)|done]. }
  assert (Qabs q == q)%Q as Habs by (apply Qabs_pos; lra).
  rewrite (Qlog2_unique (Qabs q) k); [done| |]; by rewrite Habs.
Qed.

Lemma binary64_exponent_comp (s t : Q) :
  (0 < s)%Q → (s == t)%Q → binary64_exponent s = binary64_exponent t.
Proof.
  intros Hs Heq. destruct (Qlog2_spec s Hs) as [H1 H2].
  rewrite (binary64_exponent_pos s (Qlog2 s)) by done.
  rewrite (binary64_exponent_pos t (Qlog2 s)); [done| |]; by rewrite <- Heq.
Qed.

Lemma binary64_exponent_monotone (s t : Q) :
  (0 < s)%Q → (s <= t)%Q → binary64_exponent s ≤ binary64_exponent t.
Proof.
  intros Hs Hle. assert (0 < t)%Q as Ht by lra.
  destruct (Qlog2_spec s Hs) as [H1 H2]. destruct (Qlog2_spec t Ht) as [H3 H4].
  rewrite (binary64_exponent_pos s (Qlog2 s)) by done.
  rewrite (binary64_exponent_pos t (Qlog2 t)) by done.
  assert (2 ^ Qlog2 s < 2 ^ (Qlog2 t + 1))%Q as Hlt by lra.
  apply Qpower_lt_compat_l_inv in Hlt; [|done]. lia.
Qed.

Lemma round_binary64_0 (q : Q) : (q == 0)%Q → (round_binary64 q == 0)%Q.
Proof.
  intros Hq. unfold round_binary64. generalize (binary64_exponent q). intros e.
  assert (q / 2 ^ e == inject_Z 0)%Q as Hz.
  { rewrite Hq. unfold Qdiv. ring. }
  rewrite (round_half_even_comp _ _ Hz), round_half_even_Z. ring.
Qed.

Lemma round_binary64_nonneg (q : Q) : (0 <= q)%Q → (0 <= round_binary64 q)%Q.
Proof.
  intros Hq. unfold round_binary64.
  pose proof (two_power_pos (binary64_exponent q)) as Hpos.
  apply Qmult_le_0_compat; [|lra].
  replace 0%Q with (inject_Z 0) by done. rewrite <- Zle_Qle.
  apply round_half_even_nonneg. apply Qle_shift_div_l; [done|]. lra.
Qed.

Lemma round_binary64_comp (s t : Q) :
  (s == t)%Q → (round_binary64 s == round_binary64 t)%Q.
Proof.
  intros Heq. destruct (Qlt_le_dec 0 s) as [Hpos|Hnpos].
  - unfold round_binary64. rewrite (binary64_exponent_comp s t Hpos Heq).
    assert (s / 2 ^ binary64_exponent t == t / 2 ^ binary64_exponent t)%Q as Hd
      by (by rewrite Heq).
    by rewrite (round_half_even_comp _ _ Hd).
  - destruct (Qlt_le_dec s 0) as [Hneg|Hz].
    + unfold round_binary64.
      assert (binary64_exponent s = binary64_exponent t) as ->.
      { unfold binary64_exponent.
        assert (0 < Qabs s)%Q as Ha by (rewrite Qabs_neg; lra).
        assert (Qabs s == Qabs t)%Q as Habs by (by rewrite Heq).
        destruct (Qlog2_spec _ Ha) as [H1 H2].
        rewrite (Qlog2_unique (Qabs t) (Qlog2 (Qabs s))); [done| |]; by rewrite <- Habs. }
      assert (s / 2 ^ binary64_exponent t == t / 2 ^ binary64_exponent t)%Q as Hd
        by (by rewrite Heq).
      by rewrite (round_half_even_comp _ _ Hd).
    + assert (s == 0)%Q as Hs0 by lra.
      rewrite (round_binary64_0 s Hs0), (round_binary64_0 t); [done|].
      by rewrite <- Heq.
Qed.

#[export] Instance round_binary64_Proper : Proper (Qeq ==> Qeq) round_binary64.
Proof. intros s t. apply round_binary64_comp. Qed.

Lemma scaled_nonneg (q : Q) (e : Z) : (0 <= q)%Q → (0 <= q / 2 ^ e)%Q.
Proof.
  intros Hq. pose proof (two_power_pos e). apply Qle_shift_div_l; [done|]. lra.
Qed.

(** The significand of a positive number is at most [2^53]. *)
Lemma significand_upper (q : Q) :
  (0 < q)%Q → round_half_even (q / 2 ^ binary64_exponent q) ≤ 2 ^ 53.
Proof.
  intros Hq. destruct (Qlog2_spec q Hq) as [H1 H2].
  rewrite (binary64_exponent_pos q (Qlog2 q)) by done.
  set (e := Z.max (Qlog2 q - 52) (-1074)).
  rewrite <- (round_half_even_Z (2 ^ 53)). apply round_half_even_monotone.
  pose proof (two_power_pos e) as He.
  apply Qle_shift_div_r; [done|].
  rewrite <- two_power_Z by done. rewrite <- Qpower_plus by done.
  apply Qlt_le_weak. eapply Qlt_le_trans; [exact H2|].
  apply two_power_le. lia.
Qed.

(** Above the subnormal range the significand is at least [2^52]. *)
Lemma significand_lower (q : Q) :
  (0 < q)%Q → -1074 < binary64_exponent q →
  2 ^ 52 ≤ round_half_even (q / 2 ^ binary64_exponent q).
Proof.
  intros Hq. destruct (Qlog2_spec q Hq) as [H1 H2].
  rewrite (binary64_exponent_pos q (Qlog2 q)) by done. intros He.
  assert (Z.max (Qlog2 q - 52) (-1074) = Qlog2 q - 52) as -> by lia.
  rewrite <- (round_half_even_Z (2 ^ 52)). apply round_half_even_monotone.
  pose proof (two_power_pos (Qlog2 q - 52)) as Hp.
  apply Qle_shift_div_l; [done|].
  rewrite <- two_power_Z by done. rewrite <- Qpower_plus by done.
  by replace (52 + (Qlog2 q - 52)) with (Qlog2 q) by lia.
Qed.

(** Rounding is monotone on the non-negative rationals. *)
Lemma round_binary64_monotone (s t : Q) :
  (0 <= s)%Q → (s <= t)%Q → (round_binary64 s <= round_binary64 t)%Q.
Proof.
  intros Hs Hle. destruct (Qlt_le_dec 0 s) as [Hpos|Hz].
  2: { rewrite (round_binary64_0 s) by lra. apply round_binary64_nonneg. lra. }
  assert (0 < t)%Q as Ht by lra.
  pose proof (binary64_exponent_monotone s t Hpos Hle) as He.
  pose proof (significand_upper s Hpos) as Hup.
  unfold round_binary64.
  set (es := binary64_exponent s) in *. set (et := binary64_exponent t) in *.
  pose proof (two_power_pos es) as Hes. pose proof (two_power_pos et) as Het.
  destruct (decide (es = et)) as [Heq|Hne].
  - rewrite <- Heq. apply Qmult_le_compat_r; [|lra].
    rewrite <- Zle_Qle. apply round_half_even_monotone.
    apply Qmult_le_compat_r; [done|]. apply Qlt_le_weak. by apply Qinv_lt_0_compat.
  - assert (-1074 < et) as Hnorm.
    { unfold es, et, binary64_exponent in *. lia. }
    pose proof (significand_lower t Ht Hnorm) as Hlow. fold et in Hlow.
    rewrite Zle_Qle in Hup, Hlow.
    rewrite <- two_power_Z in Hup by done. rewrite <- two_power_Z in Hlow by done.
    eapply Qle_trans; [apply Qmult_le_compat_r; [exact Hup|lra]|].
    eapply Qle_trans; [|apply Qmult_le_compat_r; [exact Hlow|lra]].
    rewrite <- !Qpower_plus by done. apply two_power_le. lia.
Qed.

(** A rounded number is a fixed point of rounding. *)
Lemma round_binary64_idempotent (q : Q) :
  (0 <= q)%Q → (round_binary64 (round_binary64 q) == round_binary64 q)%Q.
Proof.
  intros Hq0. destruct (Qlt_le_dec 0 q) as [Hq|Hz].
  2: { assert (round_binary64 q == 0)%Q as H0 by (apply round_binary64_0; lra).
       rewrite H0. by apply round_binary64_0. }
  pose proof (significand_upper q Hq) as Hup.
  pose proof (round_half_even_nonneg _ (scaled_nonneg q (binary64_exponent q) Hq0)) as Hm0.
  set (v := round_binary64 q).
  assert (v == inject_Z (round_half_even (q / 2 ^ binary64_exponent q))
               * 2 ^ binary64_exponent q)%Q as Hv by done.
  set (m := round_half_even (q / 2 ^ binary64_exponent q)) in *.
  set (e := binary64_exponent q) in *.
  assert (-1074 ≤ e) as Hemin by (unfold e, binary64_exponent; lia).
  pose proof (two_power_pos e) as He.
  destruct (decide (m = 0)) as [Hm|Hm].
  { assert (v == 0)%Q as Hv0 by (rewrite Hv, Hm; ring).
    rewrite (round_binary64_0 v Hv0). by rewrite Hv0. }
  assert (0 < v)%Q as Hvpos.
  { rewrite Hv. apply Qmult_lt_0_compat; [|done].
    replace 0%Q with (inject_Z 0) by done. rewrite <- Zlt_Qlt. lia. }
  (* the rounded value is an integer multiple of its own unit *)
  assert (∃ z, v / 2 ^ binary64_exponent v == inject_Z z)%Q as [z Hz].
  { destruct (decide (m = 2 ^ 53)) as [Hmax|Hlt].
    - assert (v == 2 ^ (53 + e))%Q as Hv2.
      { rewrite Hv, Hmax, <- two_power_Z by done. by rewrite Qpower_plus. }
      rewrite (binary64_exponent_pos v (53 + e)).
      + exists (2 ^ 52). rewrite Hv2.
        replace (Z.max (53 + e - 52) (-1074)) with (e + 1) by lia.
        rewrite <- Qpower_minus by done. rewrite <- two_power_Z by done.
        by replace (53 + e - (e + 1)) with 52 by lia.
      + rewrite Hv2. apply Qle_refl.
      + rewrite Hv2. apply two_power_lt. lia.
    - destruct (Qlog2_spec v Hvpos) as [H1 H2].
      rewrite (binary64_exponent_pos v (Qlog2 v)) by done.
      assert (v < 2 ^ (53 + e))%Q as Hvlt.
      { rewrite Hv, (Qpower_plus 2 53 e) by done.
        apply Qmult_lt_compat_r; [done|].
        rewrite two_power_Z by done. rewrite <- Zlt_Qlt. lia. }
      assert (2 ^ Qlog2 v < 2 ^ (53 + e))%Q as Hk by lra.
      apply Qpower_lt_compat_l_inv in Hk; [|done].
      set (e' := Z.max (Qlog2 v - 52) (-1074)).
      assert (e' ≤ e) as Hee by (unfold e'; lia).
      exists (m * 2 ^ (e - e')).
      rewrite Hv, inject_Z_mult, <- two_power_Z by lia.
      rewrite Qpower_minus by done. field.
      pose proof (two_power_pos e'). lra. }
  unfold round_binary64 at 1.
  rewrite (round_half_even_comp _ _ Hz), round_half_even_Z, <- Hz.
  field. pose proof (two_power_pos (binary64_exponent v)). lra.
Qed.

#[export] Instance float_add_Proper : Proper (Qeq ==> Qeq ==> Qeq) float_add.
Proof. intros x x' Hx y y' Hy. unfold float_add. by rewrite Hx, Hy. Qed.

#[export] Instance float_sub_Proper : Proper (Qeq ==> Qeq ==> Qeq) float_sub.
Proof. intros x x' Hx y y' Hy. unfold float_sub. by rewrite Hx, Hy. Qed.

#[export] Instance float_div_Proper : Proper (Qeq ==> Qeq ==> Qeq) float_div.
Proof. intros x x' Hx y y' Hy. unfold float_div. by rewrite Hx, Hy. Qed.

Lemma round_half_even_error (q : Q) :
  (q - 0.5 <= inject_Z (round_half_even q))%Q
  ∧ (inject_Z (round_half_even q) <= q + 0.5)%Q.
Proof.
  unfold round_half_even.
  pose proof (Qfloor_le q) as Hlo. pose proof (Qlt_floor q) as Hhi.
  rewrite inject_Z_plus in Hhi. change (inject_Z 1) with 1%Q in Hhi.
  set (f := Qfloor q) in *.
  destruct (Qcompare_spec (q - inject_Z f) 0.5) as [Heq|Hlt|Hgt].
  - destruct (Z.even f); rewrite ?inject_Z_plus; change (inject_Z 1) with 1%Q; lra.
  - lra.
  - rewrite inject_Z_plus. change (inject_Z 1) with 1%Q. lra.
Qed.

(** A non-negative number below [2^k] is rounded with an error of at
    most [2^(k-54)], half a unit in the last place. *)
Lemma round_binary64_error (q : Q) (k : Z) :
  (0 <= q)%Q → (q < 2 ^ k)%Q → -1021 ≤ k →
  (q - 2 ^ (k - 54) <= round_binary64 q)%Q
  ∧ (round_binary64 q <= q + 2 ^ (k - 54))%Q.
Proof.
  intros Hq0 Hqk Hk.
  pose proof (two_power_pos (k - 54)) as Hpos.
  destruct (Qlt_le_dec 0 q) as [Hq|Hz].
  2: { rewrite (round_binary64_0 q) by lra. lra. }
  destruct (Qlog2_spec q Hq) as [H1 H2].
  assert (binary64_exponent q ≤ k - 53) as He.
  { rewrite (binary64_exponent_pos q (Qlog2 q)) by done.
    assert (2 ^ Qlog2 q < 2 ^ k)%Q as Hlt by lra.
    apply Qpower_lt_compat_l_inv in Hlt; [|done]. lia. }
  unfold round_binary64. set (e := binary64_exponent q) in *.
  pose proof (two_power_pos e) as Hpe.
  destruct (round_half_even_error (q / 2 ^ e)) as [Hlo Hhi].
  set (m := inject_Z (round_half_even (q / 2 ^ e))) in *.
  assert (2 ^ e <= 2 * 2 ^ (k - 54))%Q as Hulp.
  { rewrite <- two_power_succ. apply two_power_le. lia. }
  assert (q / 2 ^ e * 2 ^ e == q)%Q as Hscale.
  { field. lra. }
  split.
  - assert ((q / 2 ^ e - 0.5) * 2 ^ e <= m * 2 ^ e)%Q as H.
    { apply Qmult_le_compat_r; lra. }
    assert ((q / 2 ^ e - 0.5) * 2 ^ e == q - 0.5 * 2 ^ e)%Q as Hr.
    { rewrite <- Hscale at 2. ring. }
    rewrite Hr in H. lra.
  - assert (m * 2 ^ e <= (q / 2 ^ e + 0.5) * 2 ^ e)%Q as H.
    { apply Qmult_le_compat_r; lra. }
    assert ((q / 2 ^ e + 0.5) * 2 ^ e == q + 0.5 * 2 ^ e)%Q as Hr.
    { rewrite <- Hscale at 2. ring. }
    rewrite Hr in H. lra.
Qed.

(** Replaces the powers of two in the goal and the hypotheses by their
    values. *)
Ltac two_power_literals :=
  repeat match goal with
  | H : context [(2 ^ ?k)%Q] |- _ =>
      let x := eval vm_compute in (2 ^ k)%Q in
      change (2 ^ k)%Q with x in H
  | |- context [(2 ^ ?k)%Q] =>
      let x := eval vm_compute in (2 ^ k)%Q in
      change (2 ^ k)%Q with x
  end.

Lemma round_binary64_half : (round_binary64 0.5 == 0.5)%Q.
Proof. by vm_compute. Qed.

Lemma float_add_0_l (x : Q) :
  (0 <= x)%Q → (float_add 0 (round_binary64 x) == round_binary64 x)%Q.
Proof.
  intros Hx. unfold float_add.
  assert (0 + round_binary64 x == round_binary64 x)%Q as -> by ring.
  by apply round_binary64_idempotent.
Qed.

Lemma float_add_0_r (x : Q) :
  (0 <= x)%Q → (float_add (round_binary64 x) 0 == round_binary64 x)%Q.
Proof.
  intros Hx. unfold float_add.
  assert (round_binary64 x + 0 == round_binary64 x)%Q as -> by ring.
  by apply round_binary64_idempotent.
Qed.

(* ================================================================== *)
(** * The labelling policy *)

(** ** The code against the policy *)

Lemma automatic_rejection_iff (c : criteria) (r : row) :
  automatic_rejection c r = true ↔ hard_reject c r.
Proof.
  unfold automatic_rejection, hard_reject.
  destruct (credit_score r <? min_credit c) eqn:Hcredit.
  { apply Z.ltb_lt in Hcredit. tauto. }
  apply Z.ltb_ge in Hcredit.
  destruct (String.eqb_spec (employment_status r) "Unemployed") as [Hemp|Hemp];
    destruct (String.eqb_spec (loan_type r) "Education Loan") as [Hloan|Hloan];
    simpl;
    destruct (Qlt_bool (income r) (inject_Z (min_income c))) eqn:Hinc;
    rewrite ?Qlt_bool_iff, ?Qlt_bool_false in Hinc;
    (split; [intros Ht; (done || tauto)
            |intros [?|[[? ?]|?]]; (done || lia || tauto)]).
Qed.

Lemma automatic_approval_iff (c : criteria) (r : row) :
  automatic_approval c r = true ↔ hard_accept c r.
Proof.
  unfold automatic_approval, hard_accept.
  rewrite !andb_true_iff, Z.geb_le, Qle_bool_iff, String.eqb_eq.
  assert (inject_Z (preferred_income c) * 1.5 == 1.5 * inject_Z (preferred_income c))%Q
    as -> by ring.
  tauto.
Qed.

(** The operands of the score are non-negative for a row that passes the
    rejection tests. *)
Lemma score_operands_nonneg (c : criteria) (r : row) :
  0 < min_income c → ¬ hard_reject c r →
  (0 <= inject_Z (credit_score r - min_credit c) / 200)%Q
  ∧ (0 <= income r - inject_Z (min_income c))%Q
  ∧ (0 < inject_Z (min_income c))%Q.
Proof.
  intros Hpos Hnrej. unfold hard_reject in Hnrej.
  assert (0 <= inject_Z (credit_score r - min_credit c))%Q as Hcredit.
  { replace 0%Q with (inject_Z 0) by done. rewrite <- Zle_Qle. lia. }
  assert (0 < inject_Z (min_income c))%Q as Hm.
  { replace 0%Q with (inject_Z 0) by done. rewrite <- Zlt_Qlt. lia. }
  split; [|split; [|done]].
  - apply Qle_shift_div_l; [done|]. lra.
  - assert (¬ (income r < inject_Z (min_income c))%Q) as Hinc by tauto.
    apply Qnot_lt_le in Hinc. lra.
Qed.

Lemma float_div_nonneg (x y : Q) :
  (0 <= x)%Q → (0 < y)%Q → (0 <= float_div x y)%Q.
Proof.
  intros Hx Hy. unfold float_div. apply round_binary64_nonneg.
  apply Qle_shift_div_l; [done|]. lra.
Qed.

(** On a row that passes the rejection tests the accumulated score is the
    formula of the policy, evaluated in binary64. *)
Lemma borderline_score_eq (c : criteria) (r : row) :
  0 < min_income c → ¬ hard_reject c r →
  (borderline_score c r == computed_policy_score c r)%Q.
Proof.
  intros Hpos Hnrej.
  destruct (score_operands_nonneg c r Hpos Hnrej) as (Hcredit & Hincome & Hm).
  cbv beta zeta delta [borderline_score computed_policy_score employment_bonus].
  change (float_div (inject_Z (credit_score r - min_credit c)) 200)
    with (round_binary64 (inject_Z (credit_score r - min_credit c) / 200)).
  pose proof (float_add_0_l _ Hcredit) as Hzero.
  set (A := round_binary64 (inject_Z (credit_score r - min_credit c) / 200)) in *.
  set (B := float_div (float_sub (income r) (inject_Z (min_income c)))
              (inject_Z (min_income c))).
  assert (0 <= A)%Q as HA by (by apply round_binary64_nonneg).
  assert (0 <= B)%Q as HB.
  { apply float_div_nonneg; [|done]. by apply round_binary64_nonneg. }
  destruct (String.eqb (employment_status r) "Employed").
  { by rewrite Hzero, round_binary64_half. }
  destruct (String.eqb (employment_status r) "Self-employed").
  { by rewrite Hzero. }
  rewrite Hzero.
  assert (round_binary64 0 == 0)%Q as -> by (by apply round_binary64_0).
  symmetry. apply float_add_0_r. lra.
Qed.

(** [round_binary64] against the kernel's binary64 arithmetic: on the
    sample grid, and at [rounding_row], the score of the model is the
    score that the primitive floats compute. *)
Lemma sample_scores_agree_true : sample_scores_agree = true.
Proof. vm_compute. reflexivity. Qed.

Lemma rounding_row_binary64 :
  binary64_value (next_up 64000) = Some (income rounding_row)
  ∧ Prim2SF (borderline_score_binary64 (Criteria 50000 80000 640 700) 684
               (next_up 64000) "Employed") = Prim2SF 1%float
  ∧ (1 <? borderline_score_binary64 (Criteria 50000 80000 640 700) 684
            (next_up 64000) "Employed")%float = false
  ∧ score_agrees (Criteria 50000 80000 640 700) 684 (next_up 64000) "Employed"
    = true.
Proof. repeat split; vm_compute; reflexivity. Qed.

Lemma determine_eligibility_policy (r : row) (c : criteria) :
  loan_criteria !! loan_type r = Some c →
  ∃ label, determine_eligibility r = inr label ∧ labeled_by_policy c r label.
Proof.
  intros Hc. unfold determine_eligibility, labeled_by_policy. rewrite Hc.
  assert (0 < min_income c) as Hpos.
  { destruct (loan_criteria_inv _ _ Hc) as [[_ ->]|[[_ ->]|[_ ->]]]; simpl; lia. }
  destruct (automatic_rejection c r) eqn:Hrej.
  { apply automatic_rejection_iff in Hrej.
    exists "Not Eligible". split; [done|]. naive_solver. }
  assert (¬ hard_reject c r) as Hnrej.
  { rewrite <- automatic_rejection_iff. congruence. }
  destruct (automatic_approval c r) eqn:Hacc.
  { apply automatic_approval_iff in Hacc.
    exists "Eligible". split; [done|]. naive_solver. }
  assert (¬ hard_accept c r) as Hnacc.
  { rewrite <- automatic_approval_iff. congruence. }
  pose proof (borderline_score_eq c r Hpos Hnrej) as Hscore_eq.
  destruct (Qlt_bool 1 (borderline_score c r)) eqn:Hscore.
  - apply Qlt_bool_iff in Hscore. rewrite Hscore_eq in Hscore.
    exists "Eligible". split; [done|]. naive_solver.
  - apply Qlt_bool_false in Hscore. rewrite Hscore_eq in Hscore.
    exists "Not Eligible". split; [done|]. naive_solver.
Qed.

Lemma loan_criteria_positive (t : string) (c : criteria) :
  loan_criteria !! t = Some c → 0 < min_income c.
Proof.
  intros [[_ ->]|[[_ ->]|[_ ->]]]%loan_criteria_inv; simpl; lia.
Qed.

Lemma employment_bonus_nonneg (status : string) :
  (0 <= employment_bonus status)%Q.
Proof.
  unfold employment_bonus.
  destruct (String.eqb status "Employed"); [done|].
  destruct (String.eqb status "Self-employed"); done.
Qed.

Lemma computed_policy_score_monotone (c : criteria) (r r' : row) :
  0 < min_income c → ¬ hard_reject c r →
  employment_status r' = employment_status r →
  credit_score r ≤ credit_score r' →
  (income r <= income r')%Q →
  (computed_policy_score c r <= computed_policy_score c r')%Q.
Proof.
  intros Hpos Hnrej Hemp Hcredit Hincome.
  destruct (score_operands_nonneg c r Hpos Hnrej) as (Hc0 & Hi0 & Hm).
  unfold computed_policy_score, float_add, float_div, float_sub. rewrite Hemp.
  pose proof (employment_bonus_nonneg (employment_status r)) as Hbonus.
  apply round_binary64_nonneg in Hbonus.
  set (bonus := round_binary64 (employment_bonus (employment_status r))) in *.
  assert (inject_Z (credit_score r - min_credit c) / 200
          <= inject_Z (credit_score r' - min_credit c) / 200)%Q as HA.
  { apply Qmult_le_compat_r; [|done]. rewrite <- Zle_Qle. lia. }
  apply (round_binary64_monotone _ _ Hc0) in HA.
  assert (income r - inject_Z (min_income c)
          <= income r' - inject_Z (min_income c))%Q as HB by lra.
  apply (round_binary64_monotone _ _ Hi0) in HB.
  pose proof (round_binary64_nonneg _ Hi0) as HB0.
  set (d := round_binary64 (income r - inject_Z (min_income c))) in *.
  set (d' := round_binary64 (income r' - inject_Z (min_income c))) in *.
  assert (0 <= d / inject_Z (min_income c))%Q as Hq0.
  { apply Qle_shift_div_l; [done|]. lra. }
  assert (d / inject_Z (min_income c) <= d' / inject_Z (min_income c))%Q as Hq.
  { apply Qmult_le_compat_r; [done|]. apply Qlt_le_weak.
    by apply Qinv_lt_0_compat. }
  apply (round_binary64_monotone _ _ Hq0) in Hq.
  pose proof (round_binary64_nonneg _ Hq0) as HQ0.
  pose proof (round_binary64_nonneg _ Hc0) as HA0.
  set (A := round_binary64 (inject_Z (credit_score r - min_credit c) / 200)) in *.
  set (A' := round_binary64 (inject_Z (credit_score r' - min_credit c) / 200)) in *.
  set (B := round_binary64 (d / inject_Z (min_income c))) in *.
  set (B' := round_binary64 (d' / inject_Z (min_income c))) in *.
  assert (0 <= A + B)%Q as Hs0 by lra.
  assert (round_binary64 (A + B) <= round_binary64 (A' + B'))%Q as Hs.
  { apply round_binary64_monotone; [done|lra]. }
  pose proof (round_binary64_nonneg _ Hs0) as HS0.
  apply round_binary64_monotone; lra.
Qed.



Section GeneratorFacts.
Context `{NumpyRandom}.


(** C5.  The generator is deterministic: it reseeds the global
    generator with the fixed seed on entry, so two calls with the same
    sample count return the same labelled corpus whatever state the
    generator was left in. *)
Theorem generate_loan_data_deterministic (num_samples : nat) (g1 g2 : rng) :
  (generate_loan_data num_samples g1).1 = (generate_loan_data num_samples g2).1.
Proof.
  unfold generate_loan_data.
  by rewrite (seed_resets 42 g1 g2).
Qed.
End GeneratorFacts.



(** The computed score depends on the income only up to equality of
    rationals. *)
Lemma computed_policy_score_ext (c : criteria) (r r' : row) :
  0 < min_income c → ¬ hard_reject c r → ¬ hard_reject c r' →
  employment_status r' = employment_status r →
  credit_score r' = credit_score r →
  (income r' == income r)%Q →
  (computed_policy_score c r' == computed_policy_score c r)%Q.
Proof.
  intros Hpos Hnrej Hnrej' Hemp Hcredit Hincome. apply Qle_antisym.
  - apply computed_policy_score_monotone; try done; [lia|]. rewrite Hincome.
    apply Qle_refl.
  - apply computed_policy_score_monotone; try done; [lia|]. rewrite Hincome.
    apply Qle_refl.
Qed.

(** An employed applicant at or above both minimums is not rejected. *)
Lemma employed_above_minimums (c : criteria) (r : row) :
  employment_status r = "Employed" →
  min_credit c ≤ credit_score r →
  (inject_Z (min_income c) <= income r)%Q →
  ¬ hard_reject c r.
Proof.
  intros Hemp Hcredit Hincome [Hlow|[[Hun _]|Hlow]]; [lia|congruence|lra].
Qed.

(** With the income at [min_income], an employed applicant scores above
    1 exactly from 101 points of credit score above [min_credit]. *)
Lemma score_at_min_income (t : string) (c : criteria) (r : row) :
  loan_criteria !! t = Some c →
  employment_status r = "Employed" →
  min_credit c ≤ credit_score r →
  (income r == inject_Z (min_income c))%Q →
  (1 < computed_policy_score c r)%Q ↔ min_credit c + 100 < credit_score r.
Proof.
  intros Hc Hemp Hcredit Hincome.
  pose proof (loan_criteria_positive _ _ Hc) as Hpos.
  assert (¬ hard_reject c r) as Hnrej.
  { apply employed_above_minimums; try done. rewrite Hincome. apply Qle_refl. }
  split.
  - intros Hscore. destruct (Z_lt_le_dec (min_credit c + 100) (credit_score r))
      as [|Hle]; [done|]. exfalso.
    set (r1 := Row (inject_Z (min_income c)) (min_credit c + 100) "Employed" t).
    assert (computed_policy_score c r <= computed_policy_score c r1)%Q as Hmono.
    { apply computed_policy_score_monotone; try done; simpl.
      rewrite Hincome. apply Qle_refl. }
    assert (computed_policy_score c r1 <= 1)%Q as Hone.
    { unfold r1.
      destruct (loan_criteria_inv _ _ Hc) as [[_ ->]|[[_ ->]|[_ ->]]];
        by vm_compute. }
    lra.
  - intros Hgt.
    set (r0 := Row (inject_Z (min_income c)) (min_credit c + 101) "Employed" t).
    assert (computed_policy_score c r0 <= computed_policy_score c r)%Q as Hmono.
    { apply computed_policy_score_monotone; try done; simpl; [|lia|].
      - apply employed_above_minimums; simpl; [done|lia|apply Qle_refl].
      - rewrite Hincome. apply Qle_refl. }
    assert (1 < computed_policy_score c r0)%Q as Hone.
    { unfold r0.
      destruct (loan_criteria_inv _ _ Hc) as [[_ ->]|[[_ ->]|[_ ->]]];
        by vm_compute. }
    lra.
Qed.

(** With the credit score at [min_credit], an employed applicant whose
    income is at least twice [min_income] scores above 1. *)
Lemma score_at_min_credit (t : string) (c : criteria) (r : row) :
  loan_criteria !! t = Some c →
  employment_status r = "Employed" →
  credit_score r = min_credit c →
  (inject_Z (2 * min_income c) <= income r)%Q →
  (1 < computed_policy_score c r)%Q.
Proof.
  intros Hc Hemp Hcredit Hincome.
  pose proof (loan_criteria_positive _ _ Hc) as Hpos.
  set (r0 := Row (inject_Z (2 * min_income c)) (min_credit c) "Employed" t).
  assert (computed_policy_score c r0 <= computed_policy_score c r)%Q as Hmono.
  { apply computed_policy_score_monotone; try done; simpl; [|lia].
    apply employed_above_minimums; simpl; [done|lia|].
    rewrite <- Zle_Qle. lia. }
  assert (1 < computed_policy_score c r0)%Q as Hone.
  { unfold r0.
    destruct (loan_criteria_inv _ _ Hc) as [[_ ->]|[[_ ->]|[_ ->]]];
      by vm_compute. }
  lra.
Qed.

(** C9.  For every loan type, an employed applicant whose credit score
    and income are at or above [min_credit] and [min_income], with at
    least one of the two exactly at its minimum, is not rejected (the
    rejection tests are strict) and not approved automatically:
    [determine_eligibility] returns the label of the scoring branch,
    Eligible exactly when the computed score exceeds 1.  So with the
    income exactly [min_income] the row is Eligible exactly when the
    credit score exceeds [min_credit] by more than 100, and with the
    credit score exactly [min_credit] it is Eligible whenever the income
    reaches twice [min_income].  The row with both exactly at the
    minimum scores 0.5 and is Not Eligible. *)
Theorem boundary_row_reaches_scoring (t : string) (c : criteria) (r : row) :
  loan_criteria !! t = Some c →
  loan_type r = t →
  employment_status r = "Employed" →
  min_credit c ≤ credit_score r →
  (inject_Z (min_income c) <= income r)%Q →
  credit_score r = min_credit c ∨ (income r == inject_Z (min_income c))%Q →
  automatic_rejection c r = false
  ∧ automatic_approval c r = false
  ∧ determine_eligibility r
    = ok (if Qlt_bool 1 (borderline_score c r) then "Eligible" else "Not Eligible")
  ∧ (determine_eligibility r = ok "Eligible" ↔ (1 < computed_policy_score c r)%Q)
  ∧ (determine_eligibility r = ok "Not Eligible"
     ↔ (computed_policy_score c r <= 1)%Q)
  ∧ ((income r == inject_Z (min_income c))%Q →
     (determine_eligibility r = ok "Eligible"
      ↔ min_credit c + 100 < credit_score r))
  ∧ (credit_score r = min_credit c →
     (inject_Z (2 * min_income c) <= income r)%Q →
     determine_eligibility r = ok "Eligible")
  ∧ (credit_score r = min_credit c → (income r == inject_Z (min_income c))%Q →
     determine_eligibility r = ok "Not Eligible"
     ∧ (borderline_score c r == 0.5)%Q).
Proof.
  intros Hc Ht Hemp Hcredit Hincome Hedge. rewrite <- Ht in Hc.
  pose proof (loan_criteria_positive _ _ Hc) as Hpos.
  pose proof (employed_above_minimums c r Hemp Hcredit Hincome) as Hnrej.
  assert (¬ hard_accept c r) as Hnacc.
  { intros (Hpref & Hhigh & _).
    destruct (loan_criteria_inv _ _ Hc) as [[_ ->]|[[_ ->]|[_ ->]]];
      simpl in *; (destruct Hedge as [Heq|Heq]; [lia|unfold inject_Z in *; lra]). }
  assert (automatic_rejection c r = false) as Hrej.
  { apply not_true_is_false. by rewrite automatic_rejection_iff. }
  assert (automatic_approval c r = false) as Hacc.
  { apply not_true_is_false. by rewrite automatic_approval_iff. }
  assert (determine_eligibility r
          = ok (if Qlt_bool 1 (borderline_score c r)
                then "Eligible" else "Not Eligible")) as Hlabel.
  { unfold determine_eligibility. rewrite Hc, Hrej, Hacc.
    by destruct (Qlt_bool 1 (borderline_score c r)). }
  pose proof (borderline_score_eq c r Hpos Hnrej) as Hscore.
  assert (determine_eligibility r = ok "Eligible"
          ↔ (1 < computed_policy_score c r)%Q) as Heligible.
  { rewrite Hlabel, <- Hscore, <- Qlt_bool_iff.
    by destruct (Qlt_bool 1 (borderline_score c r)). }
  assert (determine_eligibility r = ok "Not Eligible"
          ↔ (computed_policy_score c r <= 1)%Q) as Hnot.
  { rewrite Hlabel, <- Hscore. split.
    - destruct (Qlt_bool 1 (borderline_score c r)) eqn:Hb; [done|]. intros _.
      apply Qlt_bool_false in Hb. by apply Qnot_lt_le.
    - intros Hle. destruct (Qlt_bool 1 (borderline_score c r)) eqn:Hb; [|done].
      apply Qlt_bool_iff in Hb. lra. }
  split; [exact Hrej|]. split; [exact Hacc|]. split; [exact Hlabel|].
  split; [exact Heligible|]. split; [exact Hnot|]. split; [|split].
  - intros Hmin. rewrite Heligible. eapply score_at_min_income; eauto.
  - intros Heq Htwice. apply Heligible. eapply score_at_min_credit; eauto.
  - intros Heq Hmin. split.
    + apply Hnot. apply Qnot_lt_le. intros Hlt.
      eapply score_at_min_income in Hlt; eauto. lia.
    + rewrite Hscore.
      set (r0 := Row (inject_Z (min_income c)) (min_credit c) "Employed"
                   (loan_type r)).
      assert (computed_policy_score c r == computed_policy_score c r0)%Q as ->.
      { apply computed_policy_score_ext; try done; simpl.
        apply employed_above_minimums; simpl; [done|lia|apply Qle_refl]. }
      unfold r0.
      destruct (loan_criteria_inv _ _ Hc) as [[_ ->]|[[_ ->]|[_ ->]]];
        by vm_compute.
Qed.

Lemma boundary_row_reaches_scoring_home :
  determine_eligibility (Row 50000 640 "Employed" "Home Loan") = ok "Not Eligible"
  ∧ determine_eligibility (Row 50000 741 "Employed" "Home Loan") = ok "Eligible"
  ∧ determine_eligibility (Row 100000 640 "Employed" "Home Loan") = ok "Eligible".
Proof.
  split; [|split].
  - destruct (boundary_row_reaches_scoring "Home Loan"
                (Criteria 50000 80000 640 700)
                (Row 50000 640 "Employed" "Home Loan"))
      as (_ & _ & _ & _ & _ & _ & _ & Hcorner);
      [reflexivity|reflexivity|reflexivity|simpl; lia
      |unfold inject_Z; simpl; lra|by left|].
    apply Hcorner; [reflexivity|]. unfold inject_Z. simpl. lra.
  - destruct (boundary_row_reaches_scoring "Home Loan"
                (Criteria 50000 80000 640 700)
                (Row 50000 741 "Employed" "Home Loan"))
      as (_ & _ & _ & _ & _ & Hincome & _);
      [reflexivity|reflexivity|reflexivity|simpl; lia
      |unfold inject_Z; simpl; lra|right; unfold inject_Z; simpl; lra|].
    apply Hincome; [unfold inject_Z; simpl; lra|simpl; lia].
  - destruct (boundary_row_reaches_scoring "Home Loan"
                (Criteria 50000 80000 640 700)
                (Row 100000 640 "Employed" "Home Loan"))
      as (_ & _ & _ & _ & _ & _ & Hcredit & _);
      [reflexivity|reflexivity|reflexivity|simpl; lia
      |unfold inject_Z; simpl; lra|by left|].
    apply Hcredit; [reflexivity|]. apply Qle_bool_iff. reflexivity.
Defined.

(** C10.  The income-to-loan ratio divides the income by 250000, 50000
    and 35000 for the three known loan types and, for every other
    loan-type string, by the default 50000; it returns a number in every
    case. *)
Theorem income_ratio_divisors (income : Q) :
  _calculate_income_ratio income "Home Loan" = (income / 250000)%Q
  ∧ _calculate_income_ratio income "Education Loan" = (income / 50000)%Q
  ∧ _calculate_income_ratio income "Car Loan" = (income / 35000)%Q
  ∧ ∀ loan_type : string,
      loan_type ≠ "Home Loan" → loan_type ≠ "Education Loan" →
      loan_type ≠ "Car Loan" →
      _calculate_income_ratio income loan_type = (income / 50000)%Q.
Proof.
  repeat split; try reflexivity.
  intros loan_type Hhome Hedu Hcar. unfold _calculate_income_ratio.
  unfold typical_loan_amounts.
  rewrite !lookup_insert_ne by done. by rewrite lookup_empty.
Qed.

Lemma income_ratio_divisors_personal :
  _calculate_income_ratio 100000 "Personal Loan" = (100000 / 50000)%Q.
Proof.
  apply (income_ratio_divisors 100000); discriminate.
Defined.

(* ================================================================== *)
(** * The fitted pipeline *)

Section PipelineFacts.
Context `{Sklearn}.

(** ** What training leaves in [self] *)

Lemma preprocess_training_inv (self0 self1 : LoanEligibilityModel)
    (df : list row) (X : list features) :
  preprocess_data self0 df true = inr (self1, X) →
  label_encoders self1
  = <["loan_type" := MkLabelEncoder (Some (np_unique (loan_type <$> df)))]>
      (<["employment_status" :=
           MkLabelEncoder (Some (np_unique (employment_status <$> df)))]>
         (label_encoders self0))
  ∧ target_encoder self1 = target_encoder self0
  ∧ model self1 = model self0.
Proof.
  unfold preprocess_data, encode_column. simpl.
  destruct (scaler_fit_transform _ _) as [e|[s scaled]]; simpl; [done|].
  by intros [= <- <-].
Qed.

Lemma train_inv (self0 self : LoanEligibilityModel) (df : list labeled_row) out :
  train self0 df = inr (self, out) →
  label_encoders self
  = <["loan_type" :=
        MkLabelEncoder (Some (np_unique (loan_type <$> (applicant <$> df))))]>
      (<["employment_status" :=
           MkLabelEncoder
             (Some (np_unique (employment_status <$> (applicant <$> df))))]>
         (label_encoders self0))
  ∧ target_encoder self = MkLabelEncoder (Some ["Eligible"; "Not Eligible"])
  ∧ ∃ X y, rf_fit (model self0) X y = inr (model self).
Proof.
  unfold train.
  destruct (preprocess_data self0 (applicant <$> df) true)
    as [e|[self1 X]] eqn:Hpre; simpl; [done|].
  apply preprocess_training_inv in Hpre as (Henc & _ & Hmodel).
  destruct (le_transform _ _) as [e|y]; simpl; [done|].
  destruct (train_test_split X y) as [e|[[[X_train X_test] y_train] y_test]];
    simpl; [done|].
  destruct (rf_fit (model self1) X_train y_train) as [e|m] eqn:Hfit;
    simpl; [done|].
  destruct (rf_predict m X_test) as [e|y_pred]; simpl; [done|].
  intros [= <- <-]. simpl. rewrite Hmodel in Hfit. eauto.
Qed.

Lemma train_target_codes (self0 self : LoanEligibilityModel)
    (df : list labeled_row) out :
  train self0 df = inr (self, out) →
  target_code self "Eligible" = inr 0
  ∧ target_code self "Not Eligible" = inr 1
  ∧ le_inverse_transform (target_encoder self) [0] = inr ["Eligible"]
  ∧ le_inverse_transform (target_encoder self) [1] = inr ["Not Eligible"].
Proof.
  intros (_ & Htarget & _)%train_inv.
  unfold target_code. rewrite Htarget. done.
Qed.

Lemma take_rows_elem {A} (X : list A) (indices : list nat) (rows : list A) (x : A) :
  take_rows X indices = inr rows → x ∈ rows → x ∈ X.
Proof.
  intros Hrows Hx. unfold take_rows in Hrows.
  destruct (result_mapM_elem _ _ _ _ Hrows Hx) as (i & _ & Hi).
  destruct (X !! i) as [x'|] eqn:Hlookup; [|done].
  injection Hi as <-. by eapply list_elem_of_lookup_2.
Qed.

(** The indices that the encoder fitted by [train] gives to a list of
    labels. *)
Lemma sorted_target_codes (labels : list string) (y : list Z) :
  le_transform (MkLabelEncoder (Some ["Eligible"; "Not Eligible"])) labels = inr y →
  Forall2 (λ label code, (label = "Eligible" ∧ code = 0)
                         ∨ (label = "Not Eligible" ∧ code = 1)) labels y.
Proof.
  unfold le_transform. simpl. revert y.
  induction labels as [|s labels IH]; intros y; simpl.
  - intros [= <-]. constructor.
  - destruct (String.eqb_spec s "Eligible") as [->|_]; simpl.
    + destruct (result_mapM _ labels) as [e|y'] eqn:Hy'; simpl; [done|].
      intros [= <-]. constructor; [by left|by apply IH].
    + destruct (String.eqb_spec s "Not Eligible") as [->|_]; simpl; [|done].
      destruct (result_mapM _ labels) as [e|y'] eqn:Hy'; simpl; [done|].
      intros [= <-]. constructor; [by right|by apply IH].
Qed.

Lemma train_fit_inv (self0 self : LoanEligibilityModel) (df : list labeled_row)
    (X_test : list features) (y_test y_pred : list Z) :
  train self0 df = inr (self, (X_test, y_test, y_pred)) →
  ∃ self1 X y X_train y_train,
    preprocess_data self0 (applicant <$> df) true = inr (self1, X)
    ∧ le_transform (target_encoder self) (eligibility <$> df) = inr y
    ∧ train_test_split X y = inr (X_train, X_test, y_train, y_test)
    ∧ rf_fit (model self0) X_train y_train = inr (model self)
    ∧ rf_predict (model self) X_test = inr y_pred.
Proof.
  unfold train.
  destruct (preprocess_data self0 (applicant <$> df) true)
    as [e|[self1 X]] eqn:Hpre; simpl; [done|].
  pose proof Hpre as (_ & _ & Hmodel)%preprocess_training_inv.
  destruct (le_transform _ _) as [e|y] eqn:Hy; simpl; [done|].
  destruct (train_test_split X y) as [e|[[[X_train X_test'] y_train] y_test']]
    eqn:Hsplit; simpl; [done|].
  destruct (rf_fit (model self1) X_train y_train) as [e|m] eqn:Hfit;
    simpl; [done|].
  destruct (rf_predict m X_test') as [e|y_pred'] eqn:Hpred; simpl; [done|].
  intros [= <- <- <- <-]. simpl. rewrite Hmodel in Hfit.
  by exists self1, X, y, X_train, y_train.
Qed.

(** ** The rule loop *)

Lemma apply_rules_from_spec (self : LoanEligibilityModel) (reject approve : Z) :
  target_code self "Not Eligible" = inr reject →
  target_code self "Eligible" = inr approve →
  ∀ (items : list (Z * row)) (i : nat) (predictions : list Z),
  ∃ final,
    apply_rules_from self i items predictions = inr final
    ∧ length final = length predictions
    ∧ ∀ j, final !! j =
        match items !! (j - i)%nat with
        | Some (_, r) =>
            if decide (i ≤ j)%nat
            then rule_code reject approve r <$> predictions !! j
            else predictions !! j
        | None => predictions !! j
        end.
Proof.
  intros Hreject Happrove items.
  induction items as [|[pred r] items IH]; intros i predictions; simpl.
  { exists predictions. by rewrite ?lookup_nil. }
  rewrite Hreject, Happrove.
  set (predictions' :=
         if strict_rejection r then <[i:=reject]> predictions
         else if exceptional_approval r then <[i:=approve]> predictions
         else predictions).
  assert ((if strict_rejection r then ok (<[i:=reject]> predictions)
           else if exceptional_approval r then ok (<[i:=approve]> predictions)
           else ok predictions) = ok predictions') as Hstep.
  { unfold predictions'. by repeat case_match. }
  simpl. rewrite Hstep. simpl.
  assert (length predictions' = length predictions) as Hlen'.
  { unfold predictions'. repeat case_match; by rewrite ?length_insert. }
  assert (∀ j, j ≠ i → predictions' !! j = predictions !! j) as Hother.
  { intros j Hj. unfold predictions'.
    repeat case_match; by rewrite ?list_lookup_insert_ne. }
  assert (predictions' !! i = rule_code reject approve r <$> predictions !! i)
    as Hhere.
  { unfold predictions', rule_code.
    destruct (predictions !! i) as [p|] eqn:Hp.
    - pose proof (lookup_lt_Some _ _ _ Hp) as Hlt.
      repeat case_match; simpl; by rewrite ?list_lookup_insert_eq.
    - pose proof (proj1 (lookup_ge_None _ _) Hp) as Hge.
      repeat case_match; simpl; by rewrite ?list_insert_ge. }
  destruct (IH (S i) predictions') as (final & Hfinal & Hlen & Hspec).
  exists final. split; [done|]. split; [congruence|].
  intros j. rewrite Hspec.
  destruct (decide (j < i)%nat) as [Hlt|Hge].
  - replace (j - i)%nat with 0%nat by lia. simpl.
    rewrite decide_False by lia.
    replace (j - S i)%nat with 0%nat by lia.
    destruct (items !! 0%nat) as [[? ?]|];
      rewrite ?decide_False by lia; apply Hother; lia.
  - destruct (decide (j = i)) as [->|Hne].
    + replace (i - i)%nat with 0%nat by lia. simpl.
      rewrite decide_True by lia.
      replace (i - S i)%nat with 0%nat by lia.
      destruct (items !! 0%nat) as [[? ?]|];
        rewrite ?decide_False by lia; apply Hhere.
    + replace (j - i)%nat with (S (j - S i)) by lia. simpl.
      rewrite Hother by done.
      destruct (items !! (j - S i)%nat) as [[? ?]|]; [|done].
      rewrite !decide_True by lia. done.
Qed.

Lemma apply_custom_rules_spec (self : LoanEligibilityModel) (reject approve : Z)
    (df : list row) (predictions : list Z) :
  target_code self "Not Eligible" = inr reject →
  target_code self "Eligible" = inr approve →
  ∃ final,
    _apply_custom_rules self df predictions = inr final
    ∧ length final = length predictions
    ∧ ∀ j r p, df !! j = Some r → predictions !! j = Some p →
        final !! j = Some (rule_code reject approve r p).
Proof.
  intros Hreject Happrove. unfold _apply_custom_rules.
  destruct (apply_rules_from_spec self reject approve Hreject Happrove
              (zip predictions df) 0 predictions) as (final & Hfinal & Hlen & Hspec).
  exists final. split; [done|]. split; [done|].
  intros j r p Hr Hp.
  assert (zip predictions df !! j = Some (p, r)) as Hitem.
  { by rewrite lookup_zip_with, Hp, Hr. }
  rewrite Hspec, Nat.sub_0_r, Hitem, Hp.
  destruct (decide (0 ≤ j)%nat); [done|lia].
Qed.
End PipelineFacts.

(* ================================================================== *)
(** * The rule override layer *)

Section RuleFacts.
Context `{Sklearn}.

Lemma strict_rejection_iff (r : row) :
  strict_rejection r = true ↔ override_reject r.
Proof.
  unfold strict_rejection, override_reject.
  rewrite !orb_true_iff, !andb_true_iff, Z.ltb_lt, Qlt_bool_iff, !String.eqb_eq.
  tauto.
Qed.

Lemma exceptional_approval_iff (r : row) :
  exceptional_approval r = true ↔ override_accept r.
Proof.
  unfold exceptional_approval, override_accept.
  rewrite !andb_true_iff, Z.gtb_ltb, Z.ltb_lt, Qlt_bool_iff, String.eqb_eq.
  tauto.
Qed.

(** The outcome of the layer at one position of a trained pipeline, by
    the branch the row takes. *)
Lemma rule_output_cases (self0 self : LoanEligibilityModel)
    (training : list labeled_row) out (df : list row) (predictions : list Z)
    (i : nat) (r : row) (p : Z) :
  train self0 training = inr (self, out) →
  df !! i = Some r → predictions !! i = Some p →
  ∃ final,
    _apply_custom_rules self df predictions = inr final
    ∧ length final = length predictions
    ∧ final !! i = Some (rule_code 1 0 r p)
    ∧ le_inverse_transform (target_encoder self) [0] = inr ["Eligible"]
    ∧ le_inverse_transform (target_encoder self) [1] = inr ["Not Eligible"].
Proof.
  intros (Happrove & Hreject & Hdec0 & Hdec1)%train_target_codes Hr Hp.
  destruct (apply_custom_rules_spec self 1 0 df predictions Hreject Happrove)
    as (final & Hfinal & Hlen & Hspec).
  exists final. repeat split; try done. by apply Hspec.
Qed.

(** C2 (what the code does).  After training on any corpus the target
    encoder holds the two labels in sorted order, whatever the corpus
    and its label frequencies: Eligible has index 0 and Not Eligible has
    index 1, the reverse of the order of the list passed to [fit].
    This is the index space of the whole pipeline: the labels of the
    corpus are encoded with this encoder (Eligible as 0, Not Eligible
    as 1), the classifier is fitted on a part of these indices and
    predicts on the held-out rows, the rule overrides write the same two
    indices, and decoding maps 0 to Eligible and 1 to Not Eligible. *)
Theorem train_target_encoding (self0 self : LoanEligibilityModel)
    (training : list labeled_row) (X_test : list features)
    (y_test y_pred : list Z) :
  train self0 training = inr (self, (X_test, y_test, y_pred)) →
  classes_ (target_encoder self) = Some ["Eligible"; "Not Eligible"]
  ∧ le_transform (target_encoder self) ["Not Eligible"; "Eligible"] = inr [1; 0]
  ∧ target_code self "Not Eligible" = inr 1
  ∧ target_code self "Eligible" = inr 0
  ∧ le_inverse_transform (target_encoder self) [0; 1]
    = inr ["Eligible"; "Not Eligible"]
  ∧ ∃ self1 X y X_train y_train,
      preprocess_data self0 (applicant <$> training) true = inr (self1, X)
      ∧ le_transform (target_encoder self) (eligibility <$> training) = inr y
      ∧ Forall2 (λ lr code, (eligibility lr = "Eligible" ∧ code = 0)
                            ∨ (eligibility lr = "Not Eligible" ∧ code = 1))
          training y
      ∧ train_test_split X y = inr (X_train, X_test, y_train, y_test)
      ∧ rf_fit (model self0) X_train y_train = inr (model self)
      ∧ rf_predict (model self) X_test = inr y_pred
      ∧ (∀ code, code ∈ y_train ∨ code ∈ y_test → code = 0 ∨ code = 1).
Proof.
  intros Htrain.
  destruct (train_target_codes _ _ _ _ Htrain) as (Happrove & Hreject & _).
  destruct (train_fit_inv _ _ _ _ _ _ Htrain)
    as (self1 & X & y & X_train & y_train & Hpre & Hy & Hsplit & Hfit & Hpred).
  apply train_inv in Htrain as (_ & Htarget & _).
  rewrite Htarget in *.
  split; [done|]. split; [done|]. split; [done|]. split; [done|].
  split; [done|].
  exists self1, X, y, X_train, y_train.
  pose proof (sorted_target_codes _ _ Hy) as Hcodes.
  split; [done|]. split; [done|]. split.
  { by apply Forall2_fmap_l in Hcodes. }
  split; [done|]. split; [done|]. split; [done|].
  assert (∀ code, code ∈ y → code = 0 ∨ code = 1) as Hrange.
  { intros code Hcode. apply Forall2_Forall_r with (Q := λ code, code = 0 ∨ code = 1)
      in Hcodes.
    - rewrite Forall_forall in Hcodes. by apply Hcodes.
    - apply Forall_forall. intros label _ code' [[_ ->]|[_ ->]]; [by left|by right]. }
  unfold train_test_split in Hsplit.
  destruct (_ =? 0)%nat; [done|]. simpl in Hsplit.
  destruct (take_rows X _) as [e|X_train'] eqn:HXtrain; simpl in Hsplit; [done|].
  destruct (take_rows X _) as [e|X_test'] eqn:HXtest in Hsplit;
    simpl in Hsplit; [done|].
  destruct (take_rows y _) as [e|y_train'] eqn:Hytrain in Hsplit;
    simpl in Hsplit; [done|].
  destruct (take_rows y _) as [e|y_test'] eqn:Hytest in Hsplit;
    simpl in Hsplit; [done|].
  injection Hsplit as <- <- <- <-.
  intros code [Hcode|Hcode]; apply Hrange.
  - eapply take_rows_elem; [exact Hytrain|exact Hcode].
  - eapply take_rows_elem; [exact Hytest|exact Hcode].
Qed.

(** C3.  In a trained pipeline, a row with credit score below 500, or
    unemployed with a home loan, or with income below 25000 and a home
    loan, leaves the override layer with the index of Not Eligible,
    whatever index the classifier predicted; in particular every row
    with credit score 450 and a home loan does. *)
Theorem strict_rejection_overrides (self0 self : LoanEligibilityModel)
    (training : list labeled_row) out (df : list row) (predictions : list Z)
    (i : nat) (r : row) (p : Z) :
  train self0 training = inr (self, out) →
  df !! i = Some r → predictions !! i = Some p →
  (override_reject r → rule_output self df predictions i "Not Eligible")
  ∧ (credit_score r = 450 → loan_type r = "Home Loan" →
     rule_output self df predictions i "Not Eligible").
Proof.
  intros Htrain Hr Hp.
  destruct (rule_output_cases _ _ _ _ _ _ _ _ _ Htrain Hr Hp)
    as (final & Hfinal & Hlen & Hi & _ & Hdec).
  assert (override_reject r → rule_output self df predictions i "Not Eligible")
    as Hgeneral.
  { intros Hrej%strict_rejection_iff. exists final, 1.
    repeat split; try done. rewrite Hi. unfold rule_code. by rewrite Hrej. }
  split; [done|]. intros Hcredit _. apply Hgeneral. left. lia.
Qed.

(** C4.  In a trained pipeline the rejection override is tested first;
    when it does not fire, a row with credit score above 800, income
    above 150000 and employed status leaves the layer with the index of
    Eligible whatever the classifier predicted, in particular every
    employed row with credit score 820 and income 200000, of any loan
    type; when neither override fires the classifier's index stays. *)
Theorem exceptional_approval_overrides (self0 self : LoanEligibilityModel)
    (training : list labeled_row) out (df : list row) (predictions : list Z)
    (i : nat) (r : row) (p : Z) :
  train self0 training = inr (self, out) →
  df !! i = Some r → predictions !! i = Some p →
  (¬ override_reject r → override_accept r →
   rule_output self df predictions i "Eligible")
  ∧ (credit_score r = 820 → (income r == 200000)%Q →
     employment_status r = "Employed" →
     rule_output self df predictions i "Eligible")
  ∧ (override_reject r → override_accept r →
     rule_output self df predictions i "Not Eligible")
  ∧ (¬ override_reject r → ¬ override_accept r →
     ∃ final, _apply_custom_rules self df predictions = inr final
              ∧ final !! i = Some p).
Proof.
  intros Htrain Hr Hp.
  destruct (rule_output_cases _ _ _ _ _ _ _ _ _ Htrain Hr Hp)
    as (final & Hfinal & Hlen & Hi & Hdec0 & Hdec1).
  unfold rule_code in Hi.
  assert (¬ override_reject r → override_accept r →
          rule_output self df predictions i "Eligible") as Hgeneral.
  { intros Hnrej Hacc%exceptional_approval_iff.
    rewrite <- strict_rejection_iff in Hnrej.
    destruct (strict_rejection r); [done|]. rewrite Hacc in Hi.
    exists final, 0. by repeat split. }
  split; [done|]. split; [|split].
  - intros Hcredit Hincome Hemp. apply Hgeneral.
    + intros [?|[[? _]|[Hlow _]]]; [lia|congruence|].
      rewrite Hincome in Hlow. by apply Qlt_bool_iff in Hlow.
    + repeat split; [lia| |done]. rewrite Hincome. by apply Qlt_bool_iff.
  - intros Hrej%strict_rejection_iff _. rewrite Hrej in Hi.
    exists final, 1. by repeat split.
  - intros Hnrej Hnacc. rewrite <- strict_rejection_iff in Hnrej.
    rewrite <- exceptional_approval_iff in Hnacc.
    destruct (strict_rejection r); [done|].
    destruct (exceptional_approval r); [done|]. eauto.
Qed.
End RuleFacts.

Lemma train_target_encoding_demo :
  ∃ self out,
    train (H:=constant_sklearn) __init__ demo_corpus = inr (self, out)
    ∧ target_code self "Not Eligible" = inr 1
    ∧ target_code self "Eligible" = inr 0
    ∧ le_transform (target_encoder self) (eligibility <$> demo_corpus)
      = inr [1; 0; 0].
Proof.
  destruct (train (H:=constant_sklearn) __init__ demo_corpus)
    as [e|[self [[X_test y_test] y_pred]]] eqn:Htrain.
  - exfalso. vm_compute in Htrain. discriminate.
  - exists self, (X_test, y_test, y_pred). split; [reflexivity|].
    destruct (train_target_encoding _ _ _ _ _ _ Htrain)
      as (Hclasses & _ & Hreject & Happrove & _).
    split; [exact Hreject|]. split; [exact Happrove|].
    unfold le_transform. rewrite Hclasses. reflexivity.
Defined.

(** The list passed to [fit] names Not Eligible first, under the comment
    "Explicitly define the encoding mapping", but [fit] sorts the two
    labels: the trained target encoder gives Not Eligible the index 1
    and Eligible the index 0, not 0 and 1. *)
Lemma target_encoding_is_sorted :
  le_transform (le_fit LabelEncoder_new ["Not Eligible"; "Eligible"])
    ["Not Eligible"; "Eligible"] = inr [1; 0]
  ∧ ∃ self out,
      train (H:=constant_sklearn) __init__ demo_corpus = inr (self, out)
      ∧ target_code self "Not Eligible" = inr 1
      ∧ target_code self "Not Eligible" ≠ inr 0
      ∧ target_code self "Eligible" ≠ inr 1.
Proof.
  split; [reflexivity|].
  destruct (train (H:=constant_sklearn) __init__ demo_corpus)
    as [e|[self out]] eqn:Htrain.
  - exfalso. vm_compute in Htrain. discriminate.
  - exists self, out.
    destruct (train_target_codes _ _ _ _ Htrain) as (-> & -> & _).
    by repeat split.
Qed.

Lemma strict_rejection_overrides_demo :
  ∃ self out,
    train (H:=constant_sklearn) __init__ demo_corpus = inr (self, out)
    ∧ rule_output self [Row 60000 450 "Employed" "Home Loan"] [0] 0 "Not Eligible".
Proof.
  destruct (train (H:=constant_sklearn) __init__ demo_corpus)
    as [e|[self out]] eqn:Htrain.
  - exfalso. vm_compute in Htrain. discriminate.
  - exists self, out. split; [reflexivity|].
    apply (proj1 (strict_rejection_overrides _ _ _ _
                    [Row 60000 450 "Employed" "Home Loan"] [0] 0%nat _ 0
                    Htrain eq_refl eq_refl)).
    left. simpl. lia.
Defined.

Lemma exceptional_approval_overrides_demo :
  ∃ self out,
    train (H:=constant_sklearn) __init__ demo_corpus = inr (self, out)
    ∧ rule_output self [Row 200000 820 "Employed" "Car Loan"] [1] 0 "Eligible".
Proof.
  destruct (train (H:=constant_sklearn) __init__ demo_corpus)
    as [e|[self out]] eqn:Htrain.
  - exfalso. vm_compute in Htrain. discriminate.
  - exists self, out. split; [reflexivity|].
    apply (proj1 (proj2 (exceptional_approval_overrides _ _ _ _
                           [Row 200000 820 "Employed" "Car Loan"] [1] 0%nat _ 1
                           Htrain eq_refl eq_refl))); reflexivity.
Defined.

(* ================================================================== *)
(** * Failure modes of the pipeline *)

Lemma result_mapM_error {A B} (f : A → result B) (l : list A) (e : exn) :
  result_mapM f l = inl e → ∃ x, x ∈ l ∧ f x = inl e.
Proof.
  induction l as [|a l IH]; simpl; [done|].
  destruct (f a) as [e'|b] eqn:Ha; simpl.
  - intros [= <-]. exists a. split; [by left|done].
  - destruct (result_mapM f l) as [e'|k]; simpl; [|done].
    intros [= <-]. destruct IH as (x & Hx & He); [done|].
    exists x. split; [by right|done].
Qed.

Lemma le_transform_error (classes y : list string) (e : exn) :
  le_transform (MkLabelEncoder (Some classes)) y = inl e →
  exn_class e = "ValueError".
Proof.
  unfold le_transform. simpl. intros (s & _ & Hs)%result_mapM_error.
  destruct (index_of s classes); [done|]. by injection Hs as <-.
Qed.

Lemma raises_inl {A} (e : exn) (cls : string) :
  exn_class e = cls → raises (inl e : result A) cls.
Proof. intros <-. by exists e. Qed.

Lemma raises_rbind {A B} (c : result A) (k : A → result B) (cls : string) :
  raises c cls → raises (rbind c k) cls.
Proof. intros (e & -> & <-). by exists e. Qed.

Lemma no_undefined_exception {A} (c : result A) :
  ¬ raises c "UnknownCategoryError"
  ∧ ¬ raises c "InsufficientTrainingDataError".
Proof. split; intros (e & _ & He); by destruct e. Qed.

Section FailureFacts.
Context `{Sklearn}.

Lemma preprocess_unseen_category (self : LoanEligibilityModel)
    (seen_status seen_type : list string) (df : list row) (r : row) :
  label_encoders self !! "employment_status"
    = Some (MkLabelEncoder (Some (np_unique seen_status))) →
  label_encoders self !! "loan_type"
    = Some (MkLabelEncoder (Some (np_unique seen_type))) →
  r ∈ df →
  (employment_status r ∉ seen_status) ∨ (loan_type r ∉ seen_type) →
  raises (preprocess_data self df false) "ValueError".
Proof.
  intros Hstatus Htype Hr Hunseen.
  unfold preprocess_data, encode_column. rewrite Hstatus.
  destruct (le_transform _ (employment_status <$> df)) as [e|codes] eqn:Hcodes.
  { apply raises_inl. by eapply le_transform_error. }
  simpl. rewrite Htype.
  assert (loan_type r ∉ seen_type) as Hloan.
  { destruct Hunseen as [Hemp|]; [|done].
    destruct (le_transform_unseen seen_status (employment_status <$> df)
                (employment_status r)) as (e & He & _); [|done|congruence].
    apply list_elem_of_fmap. eauto. }
  apply raises_rbind, raises_rbind.
  apply (le_transform_unseen seen_type (loan_type <$> df) (loan_type r));
    [|done].
  apply list_elem_of_fmap. eauto.
Qed.

(** C6 (as the code has it).  In a pipeline fitted by [train], an
    inference frame with an employment status or loan type that the
    training frame did not contain makes preprocessing, and hence
    [predict], fail with the encoder's [ValueError]; no encoding is
    returned for the frame. *)
Theorem unseen_category_raises_ValueError (self0 self : LoanEligibilityModel)
    (training : list labeled_row) out (df : list row) (r : row) :
  train self0 training = inr (self, out) →
  r ∈ df →
  (employment_status r ∉ employment_status <$> (applicant <$> training))
  ∨ (loan_type r ∉ loan_type <$> (applicant <$> training)) →
  raises (preprocess_data self df false) "ValueError"
  ∧ raises (predict self df) "ValueError".
Proof.
  intros (Henc & _)%train_inv Hr Hunseen.
  assert (raises (preprocess_data self df false) "ValueError") as Hpre.
  { eapply preprocess_unseen_category; [| |done|done].
    - rewrite Henc. rewrite lookup_insert_ne by done.
      by rewrite lookup_insert_eq.
    - rewrite Henc. by rewrite lookup_insert_eq. }
  split; [done|]. unfold predict. by apply raises_rbind.
Qed.
End FailureFacts.

Lemma unseen_category_raises_ValueError_demo :
  ∃ self out,
    train (H:=constant_sklearn) __init__ demo_corpus = inr (self, out)
    ∧ raises (predict self [Row 60000 700 "Employed" "Personal Loan"]) "ValueError".
Proof.
  destruct (train (H:=constant_sklearn) __init__ demo_corpus)
    as [e|[self out]] eqn:Htrain.
  - exfalso. vm_compute in Htrain. discriminate.
  - exists self, out. split; [reflexivity|].
    apply (unseen_category_raises_ValueError _ _ _ _
             [Row 60000 700 "Employed" "Personal Loan"]
             (Row 60000 700 "Employed" "Personal Loan") Htrain).
    + by left.
    + right. simpl. rewrite !not_elem_of_cons.
      repeat split; try discriminate. apply not_elem_of_nil.
Defined.

(** C6 (as stated) fails: on a loan type never seen in training the
    fitted pipeline raises [ValueError], which is not an
    [UnknownCategoryError]. *)
Lemma unseen_category_not_typed_error :
  ∃ self out e,
    train (H:=constant_sklearn) __init__ demo_corpus = inr (self, out)
    ∧ ("Personal Loan" ∉ loan_type <$> (applicant <$> demo_corpus))
    ∧ preprocess_data self [Row 60000 700 "Employed" "Personal Loan"] false = inl e
    ∧ exn_class e = "ValueError"
    ∧ ¬ raises (preprocess_data self [Row 60000 700 "Employed" "Personal Loan"] false)
          "UnknownCategoryError".
Proof.
  destruct (train (H:=constant_sklearn) __init__ demo_corpus)
    as [e|[self out]] eqn:Htrain.
  - exfalso. vm_compute in Htrain. discriminate.
  - destruct (preprocess_unseen_category (H:=constant_sklearn) self
                (employment_status <$> (applicant <$> demo_corpus))
                (loan_type <$> (applicant <$> demo_corpus))
                [Row 60000 700 "Employed" "Personal Loan"]
                (Row 60000 700 "Employed" "Personal Loan"))
      as (e & He & Hclass).
    + apply train_inv in Htrain as (-> & _).
      rewrite lookup_insert_ne by done. by rewrite lookup_insert_eq.
    + apply train_inv in Htrain as (-> & _). by rewrite lookup_insert_eq.
    + by left.
    + right. simpl. rewrite !not_elem_of_cons.
      repeat split; try discriminate. apply not_elem_of_nil.
    + exists self, out, e. repeat split; try done.
      * simpl. rewrite !not_elem_of_cons.
        repeat split; try discriminate. apply not_elem_of_nil.
      * apply no_undefined_exception.
Qed.

(* ================================================================== *)
(** * Training on small or single-class corpora *)

Section TrainingFacts.
Context `{Sklearn}.

Lemma processed_frame_length (n : nat) (scaled : list numerical)
    (es ls : list Z) :
  length scaled = n → length es = n → length ls = n →
  length (processed_frame scaled es ls) = n.
Proof.
  revert scaled es ls. induction n as [|n IH];
    intros [|[[i c] r] scaled] [|e es] [|l ls]; simpl; try done.
  intros [=] [=] [=]. f_equal. by apply IH.
Qed.

Lemma take_rows_ok {A} (X : list A) (indices : list nat) :
  (∀ i, i ∈ indices → (i < length X)%nat) →
  ∃ rows, take_rows X indices = inr rows ∧ length rows = length indices.
Proof.
  intros Hrange. apply result_mapM_ok. intros i Hi%Hrange.
  destruct (lookup_lt_is_Some_2 X i Hi) as [x ->]. eauto.
Qed.

Lemma split_permutation_range (n i : nat) :
  i ∈ split_permutation n → (i < n)%nat.
Proof.
  rewrite (split_permutation_perm n). intros Hi%elem_of_seq. lia.
Qed.

Lemma train_test_split_ok {A B} (X : list A) (y : list B) :
  (2 ≤ length X)%nat → length X = length y →
  ∃ X_train X_test y_train y_test,
    train_test_split X y = inr (X_train, X_test, y_train, y_test)
    ∧ X_train ≠ [] ∧ length X_train = length y_train ∧ X_test ≠ [].
Proof.
  intros Hn Hlen. unfold train_test_split.
  pose proof (n_test_of_lt (length X) Hn) as Htest.
  destruct (length X - n_test_of (length X) =? 0)%nat eqn:Hzero.
  { apply Nat.eqb_eq in Hzero. lia. }
  set (ind_train := take _ (drop _ _)). set (ind_test := take _ _).
  assert (length ind_train = (length X - n_test_of (length X))%nat) as Hind.
  { unfold ind_train. rewrite length_take, length_drop.
    rewrite (Permutation_length (split_permutation_perm (length X))).
    rewrite length_seq. lia. }
  assert (∀ i, i ∈ ind_train → (i < length X)%nat) as Htrain.
  { intros i Hi. apply split_permutation_range.
    unfold ind_train in Hi.
    apply elem_of_take in Hi as (j & Hj & _).
    rewrite lookup_drop in Hj. by eapply list_elem_of_lookup_2. }
  assert (∀ i, i ∈ ind_test → (i < length X)%nat) as Htest'.
  { intros i Hi. apply split_permutation_range.
    unfold ind_test in Hi.
    apply elem_of_take in Hi as (j & Hj & _).
    by eapply list_elem_of_lookup_2. }
  destruct (take_rows_ok X ind_train Htrain) as (X_train & -> & HX).
  destruct (take_rows_ok X ind_test Htest') as (X_test & -> & HXtest).
  destruct (take_rows_ok y ind_train) as (y_train & -> & Hy).
  { intros i Hi. rewrite <- Hlen. by apply Htrain. }
  destruct (take_rows_ok y ind_test) as (y_test & -> & _).
  { intros i Hi. rewrite <- Hlen. by apply Htest'. }
  simpl. exists X_train, X_test, y_train, y_test.
  assert (length ind_test = n_test_of (length X)) as Hind'.
  { unfold ind_test. rewrite length_take.
    rewrite (Permutation_length (split_permutation_perm (length X))).
    rewrite length_seq. lia. }
  pose proof (n_test_of_pos (length X)) as Hpos.
  split; [done|]. split; [|split; [congruence|]].
  - intros ->. simpl in HX. lia.
  - intros ->. simpl in HXtest. lia.
Qed.

Lemma preprocess_training_ok (self0 : LoanEligibilityModel) (df : list row) :
  df ≠ [] →
  ∃ self1 X, preprocess_data self0 df true = inr (self1, X)
             ∧ length X = length df.
Proof.
  intros Hdf. unfold preprocess_data, encode_column. simpl.
  set (columns := zip_with _ df _).
  assert (length columns = length df) as Hcolumns.
  { unfold columns. rewrite length_zip_with, length_fmap. lia. }
  assert (columns ≠ []) as Hne.
  { intros Hnil. rewrite Hnil in Hcolumns. by destruct df. }
  match goal with
  | |- context [scaler_fit_transform ?s columns] =>
      destruct (scaler_fit_transform_ok s columns Hne)
        as (s' & scaled & Hfit & Hscaled)
  end.
  rewrite Hfit. simpl. eexists _, _. split; [done|].
  apply processed_frame_length; unfold numerical in *;
    rewrite ?length_fmap; congruence.
Qed.

Lemma train_ok (self0 : LoanEligibilityModel) (df : list labeled_row) :
  (2 ≤ length df)%nat →
  (∀ lr, lr ∈ df → eligibility lr = "Eligible" ∨ eligibility lr = "Not Eligible") →
  ∃ self out, train self0 df = inr (self, out).
Proof.
  intros Hn Hlabels. unfold train.
  destruct (preprocess_training_ok self0 (applicant <$> df))
    as (self1 & X & -> & HX).
  { destruct df; [simpl in Hn; lia|done]. }
  rewrite length_fmap in HX. simpl.
  destruct (le_transform_seen ["Not Eligible"; "Eligible"] (eligibility <$> df))
    as (y & Hy & Hylen).
  { intros s (lr & -> & Hlr)%list_elem_of_fmap.
    destruct (Hlabels lr Hlr) as [->| ->].
    - apply elem_of_cons. right. apply elem_of_cons. by left.
    - apply elem_of_cons. by left. }
  unfold le_fit. rewrite Hy. simpl. rewrite length_fmap in Hylen.
  destruct (train_test_split_ok X y)
    as (X_train & X_test & y_train & y_test & -> & Hne & Hlen & Hne');
    [lia|congruence|]. simpl.
  destruct (rf_fit_ok (model self1) X_train y_train Hne Hlen) as [m Hm].
  rewrite Hm. simpl.
  destruct (rf_predict_ok _ _ _ _ X_test Hm Hne') as (y_pred & -> & _). simpl.
  eauto.
Qed.

(** C7 (as the code has it).  [train] has no sample-count or class
    check of its own: on every corpus of at least two rows whose labels
    are Eligible or Not Eligible, also when all of them are the same
    label, it returns a fitted pipeline; and no run of [train] raises
    an [InsufficientTrainingDataError]. *)
Theorem train_has_no_data_guard (self0 : LoanEligibilityModel)
    (df : list labeled_row) :
  ((2 ≤ length df)%nat →
   (∀ lr, lr ∈ df → eligibility lr = "Eligible" ∨ eligibility lr = "Not Eligible") →
   ∃ self out, train self0 df = inr (self, out))
  ∧ ¬ raises (train self0 df) "InsufficientTrainingDataError".
Proof.
  split; [apply train_ok|apply no_undefined_exception].
Qed.

(** ** Persistence *)

Context {joblib : Joblib model_data}.

(** C8.  When [save_model] succeeds, loading the file it wrote gives a
    pipeline with the same classifier, scaler, categorical encoders and
    target encoder: every attribute of the pipeline is saved and
    restored, so [predict] returns the same labels and probabilities
    (or the same exception) on every input frame. *)
Theorem save_load_round_trip (self : LoanEligibilityModel) (filepath : string)
    (fs fs' : file_system) (df : list row) :
  save_model self filepath fs = inr fs' →
  ∃ loaded,
    load_model filepath fs' = inr loaded
    ∧ model loaded = model self
    ∧ scaler loaded = scaler self
    ∧ label_encoders loaded = label_encoders self
    ∧ target_encoder loaded = target_encoder self
    ∧ loaded = self
    ∧ predict loaded df = predict self df.
Proof.
  unfold save_model, load_model. intros Hdump.
  rewrite (joblib_load_dump _ _ _ _ Hdump). simpl.
  eexists. split; [done|]. by destruct self.
Qed.
End TrainingFacts.

Lemma save_load_round_trip_demo :
  ∃ self out fs' loaded,
    train (H:=constant_sklearn) __init__ demo_corpus = inr (self, out)
    ∧ save_model (joblib:=memory_joblib _) self "loan_model.joblib"
        (∅ : gmap string model_data) = inr fs'
    ∧ load_model (joblib:=memory_joblib _) "loan_model.joblib" fs' = inr loaded
    ∧ predict loaded [Row 60000 700 "Self-employed" "Education Loan"]
      = predict self [Row 60000 700 "Self-employed" "Education Loan"].
Proof.
  destruct (train (H:=constant_sklearn) __init__ demo_corpus)
    as [e|[self out]] eqn:Htrain.
  { exfalso. vm_compute in Htrain. discriminate. }
  destruct (save_model (joblib:=memory_joblib _) self "loan_model.joblib"
              (∅ : gmap string model_data)) as [e|fs'] eqn:Hsave.
  { exfalso. simpl in Hsave. discriminate. }
  destruct (save_load_round_trip (joblib:=memory_joblib _) self
              "loan_model.joblib" _ fs'
              [Row 60000 700 "Self-employed" "Education Loan"] Hsave)
    as (loaded & Hload & _ & _ & _ & _ & _ & Hpredict).
  by exists self, out, fs', loaded.
Defined.

(** In the in-memory file system, saving to the empty path raises and
    writes nothing. *)
Lemma save_model_empty_path :
  save_model (H:=constant_sklearn) (joblib:=memory_joblib _) __init__ ""
    (∅ : gmap string model_data)
  = inl (FileNotFoundError "").
Proof. reflexivity. Qed.

Lemma train_has_no_data_guard_single_class :
  ∃ self out,
    train (H:=constant_sklearn) __init__ single_class_corpus = inr (self, out).
Proof.
  apply (proj1 (train_has_no_data_guard (H:=constant_sklearn) __init__
                  single_class_corpus)).
  - simpl. lia.
  - intros lr Hlr. left. unfold single_class_corpus in Hlr.
    apply elem_of_cons in Hlr as [->|Hlr]; [done|].
    apply elem_of_cons in Hlr as [->|Hlr]; [done|].
    by apply elem_of_nil in Hlr.
Defined.

(** C7 (as stated) fails: training on a corpus whose two rows are both
    Eligible returns a fitted pipeline instead of raising
    [InsufficientTrainingDataError]. *)
Lemma single_class_training_succeeds :
  (∀ lr, lr ∈ single_class_corpus → eligibility lr = "Eligible")
  ∧ (∃ self out,
       train (H:=constant_sklearn) __init__ single_class_corpus = inr (self, out)
       ∧ model self = Some 0)
  ∧ ¬ raises (train (H:=constant_sklearn) __init__ single_class_corpus)
        "InsufficientTrainingDataError".
Proof.
  split; [|split].
  - intros lr Hlr. unfold single_class_corpus in Hlr.
    apply elem_of_cons in Hlr as [->|Hlr]; [done|].
    apply elem_of_cons in Hlr as [->|Hlr]; [done|].
    by apply elem_of_nil in Hlr.
  - destruct (train (H:=constant_sklearn) __init__ single_class_corpus)
      as [e|[self out]] eqn:Htrain.
    + exfalso. vm_compute in Htrain. discriminate.
    + exists self, out. split; [done|].
      vm_compute in Htrain. by injection Htrain as <- _.
  - apply no_undefined_exception.
Qed.

(* ================================================================== *)
(** * Further properties of the labelling policy and the generator *)

From Stdlib Require Import Lqa.

Lemma loan_criteria_None (t : string) :
  t ∉ ["Home Loan"; "Education Loan"; "Car Loan"] → loan_criteria !! t = None.
Proof.
  rewrite !not_elem_of_cons. intros (Hhome & Hedu & Hcar & _).
  unfold loan_criteria. rewrite !lookup_insert_ne by done. apply lookup_empty.
Qed.

Lemma determine_eligibility_known (r : row) :
  loan_type r ∈ ["Home Loan"; "Education Loan"; "Car Loan"] →
  determine_eligibility r = inr "Eligible"
  ∨ determine_eligibility r = inr "Not Eligible".
Proof.
  intros Hknown.
  assert (∃ c, loan_criteria !! loan_type r = Some c) as [c Hc].
  { set_unfold in Hknown. destruct Hknown as [->|[->|[->|[]]]]; by eexists. }
  unfold determine_eligibility. rewrite Hc.
  destruct (automatic_rejection c r); [by right|].
  destruct (automatic_approval c r); [by left|].
  destruct (Qlt_bool 1 (borderline_score c r)); [by left|by right].
Qed.

(** X1.  [determine_eligibility] returns one of the two labels for the
    three loan types of [loan_criteria] and raises [KeyError], carrying
    the loan type, for every other loan-type string. *)
Theorem determine_eligibility_loan_types (r : row) :
  (loan_type r ∈ ["Home Loan"; "Education Loan"; "Car Loan"] →
   determine_eligibility r = inr "Eligible"
   ∨ determine_eligibility r = inr "Not Eligible")
  ∧ (loan_type r ∉ ["Home Loan"; "Education Loan"; "Car Loan"] →
     determine_eligibility r = inl (KeyError (loan_type r))).
Proof.
  split; [apply determine_eligibility_known|].
  intros Hunknown. unfold determine_eligibility.
  by rewrite (loan_criteria_None _ Hunknown).
Qed.

Lemma determine_eligibility_loan_types_personal :
  determine_eligibility (Row 60000 700 "Employed" "Personal Loan")
  = inl (KeyError "Personal Loan").
Proof.
  apply (proj2 (determine_eligibility_loan_types
                  (Row 60000 700 "Employed" "Personal Loan"))).
  simpl. rewrite !not_elem_of_cons.
  repeat split; try discriminate. apply not_elem_of_nil.
Defined.

Lemma eligible_not_rejected (r : row) :
  determine_eligibility r = inr "Eligible" →
  ∃ c, loan_criteria !! loan_type r = Some c ∧ ¬ hard_reject c r.
Proof.
  unfold determine_eligibility.
  destruct (loan_criteria !! loan_type r) as [c|] eqn:Hc; [|done].
  destruct (automatic_rejection c r) eqn:Hrej; [done|]. intros _.
  exists c. split; [done|]. rewrite <- automatic_rejection_iff. congruence.
Qed.

(** X2.  A row labelled Eligible meets the minimum thresholds of its loan
    type: its credit score is at least [min_credit], its income at least
    [min_income], and an unemployed applicant is Eligible for an
    education loan only. *)
Theorem eligible_meets_minimums (r : row) :
  determine_eligibility r = inr "Eligible" →
  ∃ c, loan_criteria !! loan_type r = Some c
       ∧ min_credit c ≤ credit_score r
       ∧ (inject_Z (min_income c) <= income r)%Q
       ∧ (employment_status r = "Unemployed" → loan_type r = "Education Loan").
Proof.
  intros (c & Hc & Hnrej)%eligible_not_rejected.
  unfold hard_reject in Hnrej.
  exists c. split; [done|]. split; [lia|]. split.
  - apply Qnot_lt_le. tauto.
  - intros Hemp. destruct (decide (loan_type r = "Education Loan")); tauto.
Qed.

Lemma eligible_meets_minimums_car :
  ∃ c, loan_criteria !! "Car Loan" = Some c
       ∧ min_credit c ≤ 700
       ∧ (inject_Z (min_income c) <= 90000)%Q.
Proof.
  destruct (eligible_meets_minimums (Row 90000 700 "Employed" "Car Loan"))
    as (c & Hc & Hcredit & Hincome & _); [reflexivity|].
  exists c. simpl in *. auto.
Defined.

(** The computed score grows with the income and with the credit score,
    because rounding is monotone. *)
Lemma employment_bonus_lt_1 (status : string) :
  (employment_bonus status < 1)%Q.
Proof.
  unfold employment_bonus.
  destruct (String.eqb status "Employed"); [lra|].
  destruct (String.eqb status "Self-employed"); lra.
Qed.

Lemma computed_policy_score_error (t : string) (c : criteria) (r : row) :
  loan_criteria !! t = Some c →
  ¬ hard_reject c r →
  credit_score r ≤ 850 →
  (income r <= 500000)%Q →
  (policy_score c r - 2 ^ (-46) <= computed_policy_score c r)%Q
  ∧ (computed_policy_score c r <= policy_score c r + 2 ^ (-46))%Q.
Proof.
  intros Hc Hnrej Hcredit Hincome.
  pose proof (loan_criteria_positive _ _ Hc) as Hpos.
  destruct (score_operands_nonneg c r Hpos Hnrej) as (HA0 & HD0 & Hmi).
  pose proof (employment_bonus_nonneg (employment_status r)) as Hb0.
  pose proof (employment_bonus_lt_1 (employment_status r)) as Hb1.
  unfold computed_policy_score, policy_score, float_add, float_div, float_sub.
  set (bonus := employment_bonus (employment_status r)) in *.
  assert (600 ≤ min_credit c ∧ 25000 ≤ min_income c) as [Hmc Hmin].
  { destruct (loan_criteria_inv _ _ Hc) as [[_ ->]|[[_ ->]|[_ ->]]]; simpl; lia. }
  assert (inject_Z (credit_score r - min_credit c) <= 250)%Q as HA1.
  { change 250%Q with (inject_Z 250). rewrite <- Zle_Qle. lia. }
  set (A := (inject_Z (credit_score r - min_credit c) / 200)%Q) in *.
  assert (A < 2 ^ 1)%Q as HAk.
  { unfold A, Qdiv. change (/ 200)%Q with (1 # 200)%Q. two_power_literals. lra. }
  destruct (round_binary64_error A 1 HA0 HAk ltac:(lia)) as [HAl HAu].
  pose proof (round_binary64_nonneg A HA0) as HA'0.
  set (A' := round_binary64 A) in *.
  set (mi := inject_Z (min_income c)) in *.
  assert (25000 <= mi)%Q as Hmi25.
  { unfold mi. change 25000%Q with (inject_Z 25000). by rewrite <- Zle_Qle. }
  set (D := (income r - mi)%Q) in *.
  assert (D < 2 ^ 19)%Q as HDk.
  { unfold D. two_power_literals. lra. }
  destruct (round_binary64_error D 19 HD0 HDk ltac:(lia)) as [HDl HDu].
  pose proof (round_binary64_nonneg D HD0) as HD'0.
  set (D' := round_binary64 D) in *.
  two_power_literals.
  (* the quotient *)
  assert (0 < / mi)%Q as Hinv by (by apply Qinv_lt_0_compat).
  assert (/ mi <= 1 # 25000)%Q as Hinv25.
  { apply Qle_shift_inv_r; [lra|]. lra. }
  assert (D' / mi == D' * / mi)%Q as HQ by done.
  assert (D / mi == D * / mi)%Q as HQ' by done.
  assert (0 <= D' / mi)%Q as HQ0.
  { rewrite HQ. apply Qmult_le_0_compat; lra. }
  assert (D' / mi <= D / mi + (1 # 562949953421312))%Q as HQu.
  { rewrite HQ, HQ'.
    assert (0 <= (D + (1 # 34359738368) - D') * / mi)%Q as Hprod.
    { apply Qmult_le_0_compat; lra. }
    lra. }
  assert (D / mi - (1 # 562949953421312) <= D' / mi)%Q as HQl.
  { rewrite HQ, HQ'.
    assert (0 <= (D' - (D - (1 # 34359738368))) * / mi)%Q as Hprod.
    { apply Qmult_le_0_compat; lra. }
    lra. }
  assert (D / mi <= 19)%Q as HDmi.
  { rewrite HQ'.
    assert (0 <= D * ((1 # 25000) - / mi))%Q as Hprod.
    { apply Qmult_le_0_compat; lra. }
    unfold D in *. lra. }
  assert (D' / mi < 2 ^ 5)%Q as HQk.
  { two_power_literals. lra. }
  destruct (round_binary64_error (D' / mi) 5 HQ0 HQk ltac:(lia)) as [HBl HBu].
  pose proof (round_binary64_nonneg _ HQ0) as HB0.
  set (B' := round_binary64 (D' / mi)) in *.
  set (B := (D / mi)%Q) in *.
  two_power_literals.
  assert (0 <= A' + B')%Q as HS0 by lra.
  assert (A' + B' < 2 ^ 6)%Q as HSk.
  { two_power_literals. lra. }
  destruct (round_binary64_error (A' + B') 6 HS0 HSk ltac:(lia)) as [HSl HSu].
  pose proof (round_binary64_nonneg _ HS0) as HS'0.
  set (S2 := round_binary64 (A' + B')) in *.
  assert (bonus < 2 ^ 0)%Q as Hbk by (two_power_literals; lra).
  destruct (round_binary64_error bonus 0 Hb0 Hbk ltac:(lia)) as [Hbl Hbu].
  pose proof (round_binary64_nonneg _ Hb0) as Hb'0.
  set (bonus' := round_binary64 bonus) in *.
  two_power_literals.
  assert (0 <= S2 + bonus')%Q as HT0 by lra.
  assert (S2 + bonus' < 2 ^ 6)%Q as HTk.
  { two_power_literals. lra. }
  destruct (round_binary64_error (S2 + bonus') 6 HT0 HTk ltac:(lia)) as [HTl HTu].
  two_power_literals.
  split; lra.
Qed.
(** X21.  In the scoring branch, for a credit score of at most 850 and
    an income of at most 500000 (the ranges of the generated corpus),
    the computed score is within 2^-46 of the exact sum
    (credit_score - min_credit)/200 + (income - min_income)/min_income
    + employment_bonus.  So the row is Eligible when the exact sum
    exceeds 1 + 2^-46 and Not Eligible when it is at most 1 - 2^-46:
    rounding can change the label only within 2^-46 of the threshold. *)
Theorem score_rounding_margin (r : row) (c : criteria) :
  loan_criteria !! loan_type r = Some c →
  ¬ hard_reject c r → ¬ hard_accept c r →
  credit_score r ≤ 850 → (income r <= 500000)%Q →
  (policy_score c r - 2 ^ (-46) <= borderline_score c r)%Q
  ∧ (borderline_score c r <= policy_score c r + 2 ^ (-46))%Q
  ∧ ((1 + 2 ^ (-46) < policy_score c r)%Q →
     determine_eligibility r = ok "Eligible")
  ∧ ((policy_score c r <= 1 - 2 ^ (-46))%Q →
     determine_eligibility r = ok "Not Eligible").
Proof.
  intros Hc Hnrej Hnacc Hcredit Hincome.
  pose proof (loan_criteria_positive _ _ Hc) as Hpos.
  destruct (computed_policy_score_error _ c r Hc Hnrej Hcredit Hincome)
    as [Hlow Hhigh].
  pose proof (borderline_score_eq c r Hpos Hnrej) as Hscore.
  rewrite <- Hscore in Hlow, Hhigh.
  assert (automatic_rejection c r = false) as Hrej.
  { apply not_true_is_false. by rewrite automatic_rejection_iff. }
  assert (automatic_approval c r = false) as Hacc.
  { apply not_true_is_false. by rewrite automatic_approval_iff. }
  split; [done|]. split; [done|].
  unfold determine_eligibility. rewrite Hc, Hrej, Hacc. split.
  - intros Hexact.
    assert (Qlt_bool 1 (borderline_score c r) = true) as ->; [|done].
    apply Qlt_bool_iff. lra.
  - intros Hexact.
    assert (Qlt_bool 1 (borderline_score c r) = false) as ->; [|done].
    apply Qlt_bool_false. lra.
Qed.

Lemma score_rounding_margin_education :
  determine_eligibility (Row 60000 700 "Self-employed" "Education Loan")
  = ok "Eligible"
  ∧ determine_eligibility (Row 40000 640 "Self-employed" "Education Loan")
    = ok "Not Eligible".
Proof.
  split.
  - destruct (score_rounding_margin
                (Row 60000 700 "Self-employed" "Education Loan")
                (Criteria 30000 50000 620 680)) as (_ & _ & Heligible & _).
    + reflexivity.
    + intros [Hcredit|[[Hemp _]|Hincome]]; simpl in *;
        [lia|discriminate|by vm_compute in Hincome].
    + intros (_ & _ & Hemp). simpl in Hemp. discriminate.
    + simpl. lia.
    + by vm_compute.
    + apply Heligible. by vm_compute.
  - destruct (score_rounding_margin
                (Row 40000 640 "Self-employed" "Education Loan")
                (Criteria 30000 50000 620 680)) as (_ & _ & _ & Hnot).
    + reflexivity.
    + intros [Hcredit|[[Hemp _]|Hincome]]; simpl in *;
        [lia|discriminate|by vm_compute in Hincome].
    + intros (_ & _ & Hemp). simpl in Hemp. discriminate.
    + simpl. lia.
    + by vm_compute.
    + apply Hnot. by vm_compute.
Defined.

(** X3.  The policy is monotone: raising the income or the credit score
    of an Eligible applicant, with the same employment status and loan
    type, keeps the applicant Eligible. *)
Theorem eligibility_monotone (r r' : row) :
  loan_type r' = loan_type r →
  employment_status r' = employment_status r →
  credit_score r ≤ credit_score r' →
  (income r <= income r')%Q →
  determine_eligibility r = inr "Eligible" →
  determine_eligibility r' = inr "Eligible".
Proof.
  intros Hloan Hemp Hcredit Hincome Hr.
  destruct (eligible_not_rejected r Hr) as (c & Hc & Hnrej).
  destruct (determine_eligibility_policy r c Hc) as (label & Hlabel & Hpol).
  assert (label = "Eligible") as -> by congruence.
  assert (loan_criteria !! loan_type r' = Some c) as Hc' by by rewrite Hloan.
  destruct (determine_eligibility_policy r' c Hc') as (label' & -> & Hpol').
  f_equal.
  destruct Hpol as (Hrej & Hacc & Hscore).
  destruct Hpol' as (Hrej' & Hacc' & Hscore').
  assert (¬ hard_reject c r') as Hnrej'.
  { unfold hard_reject in *. rewrite Hloan, Hemp.
    intros [?|[?|Hlow]]; [lia|tauto|].
    apply Hnrej. right. right. lra. }
  destruct (automatic_approval c r') eqn:Ha'.
  { apply automatic_approval_iff in Ha'. auto. }
  assert (¬ hard_accept c r') as Hnacc'.
  { rewrite <- automatic_approval_iff. congruence. }
  assert (¬ hard_accept c r) as Hnacc.
  { intros (Hp & Hi & He). apply Hnacc'. unfold hard_accept.
    rewrite Hemp. repeat split; [lia|lra|done]. }
  destruct (Hscore Hnrej Hnacc) as [_ Hiff].
  destruct (Hscore' Hnrej' Hnacc') as [_ Hiff'].
  apply Hiff'. pose proof (proj1 Hiff eq_refl) as Hone.
  eapply Qlt_le_trans; [exact Hone|].
  apply computed_policy_score_monotone; try done.
  by eapply loan_criteria_positive.
Qed.

Lemma eligibility_monotone_car :
  determine_eligibility (Row 90000 750 "Employed" "Car Loan") = inr "Eligible".
Proof.
  apply (eligibility_monotone (Row 60000 700 "Employed" "Car Loan")
           (Row 90000 750 "Employed" "Car Loan")).
  - reflexivity.
  - reflexivity.
  - simpl. lia.
  - simpl. unfold Qle. simpl. lia.
  - reflexivity.
Defined.

Lemma DataFrame_columns (r : row) incs cs es ls :
  r ∈ DataFrame incs cs es ls →
  income r ∈ incs ∧ credit_score r ∈ cs
  ∧ employment_status r ∈ es ∧ loan_type r ∈ ls.
Proof.
  revert cs es ls. induction incs as [|i incs IH];
    intros [|c cs] [|e es] [|l ls]; simpl; try (by intros ?%elem_of_nil).
  intros [->|Hr]%elem_of_cons.
  - simpl. repeat split; by left.
  - destruct (IH _ _ _ Hr) as (? & ? & ? & ?). repeat split; by right.
Qed.

Lemma np_clip_range (lo hi x : Q) :
  (lo <= hi)%Q → (lo <= np_clip lo hi x <= hi)%Q.
Proof.
  intros Hle. unfold np_clip. split.
  - apply Q.min_glb; [apply Q.le_max_r|done].
  - apply Q.le_min_r.
Qed.

Lemma astype_int_range (lo hi : Z) (x : Q) :
  0 ≤ lo → (inject_Z lo <= x <= inject_Z hi)%Q → lo ≤ astype_int x ≤ hi.
Proof.
  intros Hlo [Hge Hle]. destruct x as [n d]. unfold astype_int.
  unfold Qle in Hge, Hle. simpl in *.
  rewrite Z.quot_div_nonneg by nia. split.
  - apply Z.div_le_lower_bound; lia.
  - apply Z.div_le_upper_bound; lia.
Qed.

Section GeneratorRanges.
Context `{NumpyRandom}.

(** X4.  Every row of the generated corpus has an income between 20000
    and 500000, an integer credit score between 300 and 850, one of the
    three employment statuses, one of the three loan types and one of
    the two labels. *)
Theorem generated_rows_in_range (num_samples : nat) (g0 : rng) :
  ∃ rows,
    (generate_loan_data num_samples g0).1 = inr rows
    ∧ ∀ lr, lr ∈ rows →
        (20000 <= income (applicant lr) <= 500000)%Q
        ∧ 300 ≤ credit_score (applicant lr) ≤ 850
        ∧ employment_status (applicant lr)
            ∈ ["Employed"; "Self-employed"; "Unemployed"]
        ∧ loan_type (applicant lr) ∈ ["Home Loan"; "Education Loan"; "Car Loan"]
        ∧ eligibility lr ∈ ["Eligible"; "Not Eligible"].
Proof.
  unfold generate_loan_data.
  destruct (np_random_lognormal 11 0.5 num_samples (np_random_seed 42 g0))
    as [incs g1].
  destruct (np_random_normal 680 80 num_samples g1) as [cs g2].
  set (statuses := ["Employed"; "Self-employed"; "Unemployed"]).
  set (types := ["Home Loan"; "Education Loan"; "Car Loan"]).
  pose proof (choice_elem statuses [0.75; 0.20; 0.05]%Q num_samples g2) as Hes.
  destruct (np_random_choice statuses [0.75; 0.20; 0.05]%Q num_samples g2)
    as [es g3].
  pose proof (choice_elem types [0.35; 0.25; 0.40]%Q num_samples g3) as Hls.
  destruct (np_random_choice types [0.35; 0.25; 0.40]%Q num_samples g3)
    as [ls g4]. simpl in Hes, Hls. simpl.
  set (df := DataFrame _ _ _ _).
  assert (∀ r, r ∈ df →
            determine_eligibility r = inr "Eligible"
            ∨ determine_eligibility r = inr "Not Eligible") as Hlabel.
  { intros r (_ & _ & _ & Hl)%DataFrame_columns.
    apply determine_eligibility_known. by apply Hls. }
  destruct (result_mapM_ok determine_eligibility df) as (labels & Hlabels & _).
  { intros r [->| ->]%Hlabel; eauto. }
  rewrite Hlabels. simpl. eexists. split; [done|].
  intros lr (i & r & l & -> & Hr & Hl)%elem_of_lookup_zip_with. simpl.
  destruct (result_mapM_lookup _ _ _ _ _ Hlabels Hr) as (l' & Hl' & Hi).
  assert (l' = l) as -> by congruence.
  assert (r ∈ df) as Hin by by eapply list_elem_of_lookup_2.
  destruct (DataFrame_columns _ _ _ _ _ Hin) as (Hi' & Hc' & He' & Ht').
  apply list_elem_of_fmap in Hi' as (x & -> & _).
  apply list_elem_of_fmap in Hc' as (y & -> & _).
  split; [by apply np_clip_range|].
  split; [apply astype_int_range; [lia|by apply np_clip_range]|].
  split; [by apply Hes|]. split; [by apply Hls|].
  destruct (Hlabel r Hin) as [Hd|Hd]; rewrite Hd in Hl'; injection Hl' as <-.
  - by left.
  - right. by left.
Qed.
End GeneratorRanges.

Lemma generated_rows_in_range_lcg :
  ∃ rows,
    (generate_loan_data (H:=lcg_numpy) 3 0).1 = inr rows
    ∧ ∀ lr, lr ∈ rows →
        (20000 <= income (applicant lr) <= 500000)%Q
        ∧ 300 ≤ credit_score (applicant lr) ≤ 850
        ∧ employment_status (applicant lr)
            ∈ ["Employed"; "Self-employed"; "Unemployed"]
        ∧ loan_type (applicant lr) ∈ ["Home Loan"; "Education Loan"; "Car Loan"]
        ∧ eligibility lr ∈ ["Eligible"; "Not Eligible"].
Proof. exact (generated_rows_in_range (H:=lcg_numpy) 3%nat 0). Defined.

(* ================================================================== *)
(** * Further properties of the encoders *)

Lemma index_of_Some (s : string) (classes : list string) (i : Z) :
  index_of s classes = Some i →
  0 ≤ i < Z.of_nat (length classes) ∧ classes !! Z.to_nat i = Some s.
Proof.
  revert i. induction classes as [|a classes IH]; intros i; simpl; [done|].
  destruct (String.eqb_spec s a) as [->|Hne].
  - intros [= <-]. split; [lia|done].
  - destruct (index_of s classes) as [i'|]; simpl; [|done].
    intros [= <-]. destruct (IH i' eq_refl) as [Hrange Hlookup].
    split; [lia|]. by rewrite Z2Nat.inj_succ by lia.
Qed.

Lemma index_of_elem (s : string) (classes : list string) :
  s ∈ classes → ∃ i, index_of s classes = Some i.
Proof.
  intros Hs. destruct (index_of s classes) as [i|] eqn:Hi; [by eauto|].
  by apply index_of_None in Hi.
Qed.

(** Decoding undoes encoding, for every fitted encoder. *)
Lemma le_round_trip (enc : LabelEncoder) (y : list string) (codes : list Z) :
  le_transform enc y = inr codes → le_inverse_transform enc codes = inr y.
Proof.
  unfold le_transform, le_inverse_transform.
  destruct (classes_ enc) as [classes|]; [|done].
  revert codes. induction y as [|s y IH]; intros codes; simpl.
  - by intros [= <-].
  - destruct (index_of s classes) as [i|] eqn:Hi; simpl; [|done].
    destruct (result_mapM _ y) as [e|codes'] eqn:Hy; simpl; [done|].
    intros [= <-]. simpl.
    destruct (index_of_Some _ _ _ Hi) as [[Hlo Hhi] Hlookup].
    assert ((0 <=? i) && (i <? Z.of_nat (length classes)) = true) as ->.
    { apply andb_true_iff. split; [by apply Z.leb_le|by apply Z.ltb_lt]. }
    rewrite Hlookup. simpl. by rewrite (IH codes').
Qed.

(** [transform] on the data an encoder was fitted on reproduces the
    codes of [fit_transform]. *)
Lemma le_transform_fit_transform (enc : LabelEncoder) (y : list string) :
  le_transform (le_fit_transform enc y).1 y = inr (le_fit_transform enc y).2.
Proof.
  unfold le_fit_transform, le_transform. simpl.
  assert (∀ l, (∀ s, s ∈ l → s ∈ y) →
               result_mapM
                 (λ s, match index_of s (np_unique y) with
                       | Some i => ok i
                       | None => raise (ValueError "y contains previously unseen labels")
                       end) l
               = inr ((λ s, default 0 (index_of s (np_unique y))) <$> l)) as Hgen.
  { induction l as [|s l IH]; intros Hl; simpl; [done|].
    destruct (index_of_elem s (np_unique y)) as [i Hi].
    { apply elem_of_np_unique, Hl. by left. }
    rewrite Hi. simpl. rewrite IH; [done|]. intros t Ht. apply Hl. by right. }
  by apply Hgen.
Qed.

Section EncoderFacts.
Context `{Sklearn}.

(** X5.  The categorical encoding is the same at training and at
    inference: encoding a column in training mode and encoding the same
    column again in inference mode, with the encoder just fitted, gives
    the same codes and leaves the pipeline unchanged. *)
Theorem encode_column_refit_stable (self self' : LoanEligibilityModel)
    (column : string) (values : list string) (codes : list Z) :
  encode_column self column values true = inr (self', codes) →
  encode_column self' column values false = inr (self', codes).
Proof.
  unfold encode_column.
  pose proof (le_transform_fit_transform LabelEncoder_new values) as Hfit.
  destruct (le_fit_transform LabelEncoder_new values) as [enc codes'] eqn:Henc.
  simpl in Hfit. intros [= <- <-]. simpl.
  rewrite lookup_insert_eq. by rewrite Hfit.
Qed.

(** X6.  After [train], whatever the pipeline had learned before, the
    encoder of either categorical column knows exactly the values that
    occur in that column of the training frame. *)
Theorem train_refits_encoders (self0 self : LoanEligibilityModel)
    (training : list labeled_row) out :
  train self0 training = inr (self, out) →
  ∃ statuses types,
    label_encoders self !! "employment_status"
      = Some (MkLabelEncoder (Some statuses))
    ∧ label_encoders self !! "loan_type" = Some (MkLabelEncoder (Some types))
    ∧ (∀ s, s ∈ statuses ↔ s ∈ employment_status <$> (applicant <$> training))
    ∧ (∀ t, t ∈ types ↔ t ∈ loan_type <$> (applicant <$> training)).
Proof.
  intros (Henc & _)%train_inv. eexists _, _. rewrite Henc.
  split; [rewrite lookup_insert_ne by done; by rewrite lookup_insert_eq|].
  split; [by rewrite lookup_insert_eq|].
  split; intros s; apply elem_of_np_unique.
Qed.

(** X7.  The target encoding of a trained pipeline round-trips: every
    list of the two labels is encoded with indices 0 and 1 only, and
    decoding those indices gives the labels back. *)
Theorem target_encoding_round_trip (self0 self : LoanEligibilityModel)
    (training : list labeled_row) out (labels : list string) :
  train self0 training = inr (self, out) →
  (∀ l, l ∈ labels → l = "Eligible" ∨ l = "Not Eligible") →
  ∃ codes,
    le_transform (target_encoder self) labels = inr codes
    ∧ (∀ c, c ∈ codes → c = 0 ∨ c = 1)
    ∧ le_inverse_transform (target_encoder self) codes = inr labels.
Proof.
  intros (_ & Htarget & _)%train_inv Hlabels. rewrite Htarget.
  destruct (le_transform_seen ["Not Eligible"; "Eligible"] labels)
    as (codes & Hcodes & _).
  { intros l [-> | ->]%Hlabels.
    - apply elem_of_cons. right. by left.
    - by left. }
  change (np_unique ["Not Eligible"; "Eligible"])
    with ["Eligible"; "Not Eligible"] in Hcodes.
  exists codes. split; [done|]. split; [|by apply le_round_trip].
  intros c (i & Hi)%list_elem_of_lookup_1.
  unfold le_transform in Hcodes. simpl in Hcodes.
  destruct (lookup_lt_is_Some_2 labels i) as [l Hl].
  { rewrite <- (result_mapM_length _ _ _ Hcodes). by eapply lookup_lt_Some. }
  destruct (result_mapM_lookup _ _ _ _ _ Hcodes Hl) as (c' & Hc' & Hi').
  assert (c' = c) as -> by congruence.
  destruct (Hlabels l) as [-> | ->]; [by eapply list_elem_of_lookup_2| |];
    simpl in Hc'; injection Hc' as <-; auto.
Qed.

(** X8.  [predict] on a pipeline that has no encoder for the employment
    status, such as a new [LoanEligibilityModel], raises [KeyError] for
    every input frame, the empty one included. *)
Theorem predict_unfitted_KeyError (self : LoanEligibilityModel) (df : list row) :
  label_encoders self !! "employment_status" = None →
  predict self df = inl (KeyError "employment_status").
Proof.
  intros Hnone. unfold predict, preprocess_data, encode_column.
  by rewrite Hnone.
Qed.
End EncoderFacts.

Lemma predict_unfitted_KeyError_new :
  predict (H:=constant_sklearn) __init__ [Row 60000 700 "Employed" "Home Loan"]
  = inl (KeyError "employment_status").
Proof. apply predict_unfitted_KeyError. reflexivity. Defined.

Lemma encode_column_refit_stable_demo :
  ∃ self' codes,
    encode_column (H:=constant_sklearn) __init__ "loan_type"
      ["Home Loan"; "Car Loan"; "Home Loan"] true = inr (self', codes)
    ∧ encode_column self' "loan_type"
        ["Home Loan"; "Car Loan"; "Home Loan"] false = inr (self', codes).
Proof.
  destruct (encode_column (H:=constant_sklearn) __init__ "loan_type"
              ["Home Loan"; "Car Loan"; "Home Loan"] true)
    as [e|[self' codes]] eqn:Henc.
  - exfalso. vm_compute in Henc. discriminate.
  - exists self', codes. split; [reflexivity|].
    apply (encode_column_refit_stable _ _ _ _ _ Henc).
Defined.

Lemma train_refits_encoders_demo :
  ∃ self out types,
    train (H:=constant_sklearn) __init__ demo_corpus = inr (self, out)
    ∧ label_encoders self !! "loan_type" = Some (MkLabelEncoder (Some types))
    ∧ ("Car Loan" ∈ types ↔ "Car Loan" ∈ loan_type <$> (applicant <$> demo_corpus)).
Proof.
  destruct (train (H:=constant_sklearn) __init__ demo_corpus)
    as [e|[self out]] eqn:Htrain.
  - exfalso. vm_compute in Htrain. discriminate.
  - destruct (train_refits_encoders _ _ _ _ Htrain)
      as (statuses & types & _ & Htypes & _ & Hiff).
    exists self, out, types. split; [reflexivity|]. split; [exact Htypes|].
    apply Hiff.
Defined.

Lemma target_encoding_round_trip_demo :
  ∃ self out codes,
    train (H:=constant_sklearn) __init__ demo_corpus = inr (self, out)
    ∧ le_transform (target_encoder self) ["Eligible"; "Not Eligible"; "Eligible"]
      = inr codes
    ∧ le_inverse_transform (target_encoder self) codes
      = inr ["Eligible"; "Not Eligible"; "Eligible"].
Proof.
  destruct (train (H:=constant_sklearn) __init__ demo_corpus)
    as [e|[self out]] eqn:Htrain.
  - exfalso. vm_compute in Htrain. discriminate.
  - destruct (target_encoding_round_trip _ _ _ _
                ["Eligible"; "Not Eligible"; "Eligible"] Htrain)
      as (codes & Hcodes & _ & Hback).
    + intros l Hl. rewrite !elem_of_cons in Hl.
      destruct Hl as [->|[->|[->|Hl]]]; auto. by apply elem_of_nil in Hl.
    + exists self, out, codes. split; [reflexivity|]. by split.
Defined.

(* ================================================================== *)
(** * Further properties of the rule override layer *)

Section RuleLayerFacts.
Context `{Sklearn}.

Lemma apply_custom_rules_lookup (self : LoanEligibilityModel) (reject approve : Z)
    (df : list row) (predictions : list Z) :
  target_code self "Not Eligible" = inr reject →
  target_code self "Eligible" = inr approve →
  ∃ final,
    _apply_custom_rules self df predictions = inr final
    ∧ length final = length predictions
    ∧ ∀ j, final !! j =
        match df !! j with
        | Some r => rule_code reject approve r <$> predictions !! j
        | None => predictions !! j
        end.
Proof.
  intros Hreject Happrove. unfold _apply_custom_rules.
  destruct (apply_rules_from_spec self reject approve Hreject Happrove
              (zip predictions df) 0 predictions) as (final & Hfinal & Hlen & Hspec).
  exists final. split; [done|]. split; [done|].
  intros j. rewrite Hspec, Nat.sub_0_r, lookup_zip_with.
  destruct (predictions !! j) as [p|]; simpl; [|by destruct (df !! j)].
  destruct (df !! j) as [r|]; simpl; [|done].
  destruct (decide (0 ≤ j)%nat); [done|lia].
Qed.

(** X9.  The override layer stays inside the classifier's index space:
    in a trained pipeline, when every predicted index is 0 or 1, so is
    every index the layer returns, and decoding them succeeds with one
    label, Eligible or Not Eligible, per prediction. *)
Theorem overrides_keep_index_space (self0 self : LoanEligibilityModel)
    (training : list labeled_row) out (df : list row) (predictions : list Z) :
  train self0 training = inr (self, out) →
  (∀ p, p ∈ predictions → p = 0 ∨ p = 1) →
  ∃ final labels,
    _apply_custom_rules self df predictions = inr final
    ∧ (∀ p, p ∈ final → p = 0 ∨ p = 1)
    ∧ le_inverse_transform (target_encoder self) final = inr labels
    ∧ length labels = length predictions
    ∧ (∀ l, l ∈ labels → l = "Eligible" ∨ l = "Not Eligible").
Proof.
  intros Htrain Hbinary.
  destruct (train_target_codes _ _ _ _ Htrain) as (Happrove & Hreject & _).
  apply train_inv in Htrain as (_ & Htarget & _).
  destruct (apply_custom_rules_lookup self 1 0 df predictions Hreject Happrove)
    as (final & Hfinal & Hlen & Hspec).
  assert (∀ p, p ∈ final → p = 0 ∨ p = 1) as Hfinal01.
  { intros p (j & Hj)%list_elem_of_lookup_1. rewrite Hspec in Hj.
    assert (∀ q, predictions !! j = Some q → q = 0 ∨ q = 1) as Hq.
    { intros q Hq. apply Hbinary. by eapply list_elem_of_lookup_2. }
    destruct (df !! j) as [r|]; [|by apply Hq].
    destruct (predictions !! j) as [q|]; simpl in Hj; [|done].
    injection Hj as <-. unfold rule_code.
    destruct (strict_rejection r); [by right|].
    destruct (exceptional_approval r); [by left|]. by apply Hq. }
  rewrite Htarget. unfold le_inverse_transform. simpl.
  set (decode := λ i : Z, _).
  assert (∀ p, p ∈ final →
            decode p = inr "Eligible" ∨ decode p = inr "Not Eligible") as Hdecode.
  { intros p [-> | ->]%Hfinal01; [by left|by right]. }
  destruct (result_mapM_ok decode final) as (labels & Hlabels & Hlen').
  { intros p [-> | ->]%Hdecode; eauto. }
  exists final, labels. split; [done|]. split; [done|]. split; [done|].
  split; [congruence|].
  intros l (j & Hj)%list_elem_of_lookup_1.
  destruct (lookup_lt_is_Some_2 final j) as [p Hp].
  { rewrite <- Hlen'. by eapply lookup_lt_Some. }
  destruct (result_mapM_lookup _ _ _ _ _ Hlabels Hp) as (l' & Hl' & Hj').
  assert (l' = l) as -> by congruence.
  destruct (Hdecode p) as [Hd|Hd]; [by eapply list_elem_of_lookup_2| |];
    rewrite Hd in Hl'; injection Hl' as <-; auto.
Qed.

(** X10.  The override loop pairs predictions with rows by position and
    stops at the shorter of the two: it keeps the number of
    predictions, leaves every prediction beyond the last row as it was,
    and ignores the rows beyond the last prediction. *)
Theorem overrides_stop_at_shorter (self0 self : LoanEligibilityModel)
    (training : list labeled_row) out (df : list row) (predictions : list Z) :
  train self0 training = inr (self, out) →
  ∃ final,
    _apply_custom_rules self df predictions = inr final
    ∧ length final = length predictions
    ∧ (∀ j, (length df ≤ j)%nat → final !! j = predictions !! j)
    ∧ _apply_custom_rules self (take (length predictions) df) predictions
      = inr final.
Proof.
  intros Htrain.
  destruct (train_target_codes _ _ _ _ Htrain) as (Happrove & Hreject & _).
  destruct (apply_custom_rules_lookup self 1 0 df predictions Hreject Happrove)
    as (final & Hfinal & Hlen & Hspec).
  exists final. split; [done|]. split; [done|]. split.
  - intros j Hj. rewrite Hspec. by rewrite (lookup_ge_None_2 df j).
  - unfold _apply_custom_rules in *.
    by rewrite (zip_with_take_r pair predictions df).
Qed.

Lemma apply_rules_from_unfitted (self : LoanEligibilityModel) :
  classes_ (target_encoder self) = None →
  ∀ (items : list (Z * row)) (i : nat) (predictions : list Z),
    (Forall (λ it, strict_rejection it.2 = false
                   ∧ exceptional_approval it.2 = false) items →
     apply_rules_from self i items predictions = inr predictions)
    ∧ (Exists (λ it, strict_rejection it.2 = true
                     ∨ exceptional_approval it.2 = true) items →
       raises (apply_rules_from self i items predictions) "NotFittedError").
Proof.
  intros Hnone.
  assert (∀ label, ∃ msg, target_code self label = inl (NotFittedError msg))
    as Hcode.
  { intros label. unfold target_code, le_transform. rewrite Hnone. by eexists. }
  induction items as [|[pred r] items IH]; intros i predictions.
  { split; [done|]. by intros ?%Exists_nil. }
  simpl. split.
  - intros [[Hs Ha] Hrest]%Forall_cons. simpl in Hs, Ha.
    rewrite Hs, Ha. simpl. by apply IH.
  - intros Hex.
    destruct (strict_rejection r) eqn:Hs.
    { destruct (Hcode "Not Eligible") as [msg ->]. by apply raises_inl. }
    destruct (exceptional_approval r) eqn:Ha.
    { destruct (Hcode "Eligible") as [msg ->]. by apply raises_inl. }
    simpl. apply IH. apply Exists_cons in Hex as [[?|?]|?]; simpl in *; congruence.
Qed.

(** X11.  With a target encoder that was never fitted, the override
    layer returns the predictions unchanged when no row that has a
    prediction meets an override, and raises [NotFittedError] as soon
    as one such row meets the rejection or the approval rule. *)
Theorem overrides_unfitted_encoder (self : LoanEligibilityModel)
    (df : list row) (predictions : list Z) :
  classes_ (target_encoder self) = None →
  ((∀ j r, df !! j = Some r → (j < length predictions)%nat →
           ¬ override_reject r ∧ ¬ override_accept r) →
   _apply_custom_rules self df predictions = inr predictions)
  ∧ ((∃ j r, df !! j = Some r ∧ (j < length predictions)%nat
             ∧ (override_reject r ∨ override_accept r)) →
     raises (_apply_custom_rules self df predictions) "NotFittedError").
Proof.
  intros Hnone. unfold _apply_custom_rules.
  destruct (apply_rules_from_unfitted self Hnone (zip predictions df) 0 predictions)
    as [Hquiet Hfire].
  split.
  - intros Hnone_fires. apply Hquiet. apply Forall_lookup_2.
    intros j [p r] Hj. rewrite lookup_zip_with in Hj.
    destruct (predictions !! j) as [p'|] eqn:Hp; simpl in Hj; [|done].
    destruct (df !! j) as [r'|] eqn:Hr; simpl in Hj; [|done].
    injection Hj as <- <-. simpl.
    destruct (Hnone_fires j r' Hr) as [Hnr Hna]; [by eapply lookup_lt_Some|].
    rewrite <- strict_rejection_iff in Hnr.
    rewrite <- exceptional_approval_iff in Hna.
    split; [by destruct (strict_rejection r')|by destruct (exceptional_approval r')].
  - intros (j & r & Hr & Hj & Hfires). apply Hfire.
    destruct (lookup_lt_is_Some_2 predictions j Hj) as [p Hp].
    apply Exists_exists. exists (p, r). split.
    + apply list_elem_of_lookup. exists j.
      by rewrite lookup_zip_with, Hp, Hr.
    + simpl. rewrite strict_rejection_iff, exceptional_approval_iff. done.
Qed.
End RuleLayerFacts.

Lemma overrides_keep_index_space_demo :
  ∃ self out final labels,
    train (H:=constant_sklearn) __init__ demo_corpus = inr (self, out)
    ∧ _apply_custom_rules self
        [Row 60000 450 "Employed" "Home Loan"; Row 200000 820 "Employed" "Car Loan"]
        [0; 1] = inr final
    ∧ le_inverse_transform (target_encoder self) final = inr labels
    ∧ length labels = 2%nat.
Proof.
  destruct (train (H:=constant_sklearn) __init__ demo_corpus)
    as [e|[self out]] eqn:Htrain.
  - exfalso. vm_compute in Htrain. discriminate.
  - destruct (overrides_keep_index_space _ _ _ _
                [Row 60000 450 "Employed" "Home Loan";
                 Row 200000 820 "Employed" "Car Loan"] [0; 1] Htrain)
      as (final & labels & Hfinal & _ & Hlabels & Hlen & _).
    + intros p Hp. rewrite !elem_of_cons in Hp.
      destruct Hp as [->|[->|Hp]]; auto. by apply elem_of_nil in Hp.
    + exists self, out, final, labels. split; [reflexivity|]. by repeat split.
Defined.

Lemma overrides_stop_at_shorter_demo :
  ∃ self out final,
    train (H:=constant_sklearn) __init__ demo_corpus = inr (self, out)
    ∧ _apply_custom_rules self [Row 60000 450 "Employed" "Home Loan"] [0; 0; 1]
      = inr final
    ∧ final !! 2%nat = Some 1.
Proof.
  destruct (train (H:=constant_sklearn) __init__ demo_corpus)
    as [e|[self out]] eqn:Htrain.
  - exfalso. vm_compute in Htrain. discriminate.
  - destruct (overrides_stop_at_shorter _ _ _ _
                [Row 60000 450 "Employed" "Home Loan"] [0; 0; 1] Htrain)
      as (final & Hfinal & _ & Hkeep & _).
    exists self, out, final. split; [reflexivity|]. split; [exact Hfinal|].
    rewrite Hkeep; [reflexivity|simpl; lia].
Defined.

Lemma overrides_unfitted_encoder_new :
  raises (_apply_custom_rules (H:=constant_sklearn) __init__
            [Row 60000 450 "Employed" "Home Loan"] [0]) "NotFittedError".
Proof.
  apply (proj2 (overrides_unfitted_encoder (H:=constant_sklearn) __init__
                  [Row 60000 450 "Employed" "Home Loan"] [0] eq_refl)).
  exists 0%nat, (Row 60000 450 "Employed" "Home Loan").
  split; [reflexivity|]. split; [simpl; lia|]. left. left. simpl. lia.
Defined.

(* ================================================================== *)
(** * Further properties of training *)

Section TrainingErrors.
Context `{Sklearn}.

Lemma train_unknown_label (self0 : LoanEligibilityModel)
    (df : list labeled_row) (lr : labeled_row) :
  lr ∈ df →
  eligibility lr ≠ "Eligible" → eligibility lr ≠ "Not Eligible" →
  raises (train self0 df) "ValueError".
Proof.
  intros Hlr Hne Hnn. unfold train.
  destruct (preprocess_training_ok self0 (applicant <$> df))
    as (self1 & X & -> & _).
  { intros Hnil. apply fmap_nil_inv in Hnil. subst. by apply elem_of_nil in Hlr. }
  simpl. apply raises_rbind.
  apply (le_transform_unseen ["Not Eligible"; "Eligible"] (eligibility <$> df)
           (eligibility lr)).
  - apply list_elem_of_fmap. eauto.
  - rewrite !not_elem_of_cons. repeat split; try done. apply not_elem_of_nil.
Qed.

(** X12.  [train] raises [ValueError] when some row of the corpus
    carries a label other than Eligible and Not Eligible; no pipeline is
    returned. *)
Theorem train_rejects_unknown_label (self0 : LoanEligibilityModel)
    (df : list labeled_row) (lr : labeled_row) :
  lr ∈ df →
  eligibility lr ≠ "Eligible" → eligibility lr ≠ "Not Eligible" →
  raises (train self0 df) "ValueError"
  ∧ ∀ self out, train self0 df ≠ inr (self, out).
Proof.
  intros Hlr Hne Hnn.
  destruct (train_unknown_label self0 df lr Hlr Hne Hnn) as (e & He & Hclass).
  split; [by exists e|]. intros self out. by rewrite He.
Qed.

(** X13.  [train] on a corpus of a single row always raises
    [ValueError]: with a valid label the split would leave an empty
    training set, and an invalid label is refused by the target
    encoder. *)
Theorem train_single_row_fails (self0 : LoanEligibilityModel)
    (df : list labeled_row) :
  length df = 1%nat → raises (train self0 df) "ValueError".
Proof.
  intros Hlen. destruct df as [|lr [|? ?]]; try done.
  destruct (decide (eligibility lr = "Eligible"
                    ∨ eligibility lr = "Not Eligible")) as [Hvalid|Hinvalid].
  - unfold train.
    destruct (preprocess_training_ok self0 (applicant <$> [lr]))
      as (self1 & X & -> & HX); [done|]. simpl in HX. simpl.
    destruct (le_transform_seen ["Not Eligible"; "Eligible"] (eligibility <$> [lr]))
      as (y & Hy & Hylen).
    { intros s [->|Hs%elem_of_nil]%elem_of_cons; [|done].
      destruct Hvalid as [-> | ->].
      - apply elem_of_cons. right. by left.
      - by left. }
    unfold le_fit. change (eligibility <$> [lr]) with [eligibility lr] in Hy.
    rewrite Hy. simpl.
    apply raises_rbind. unfold train_test_split. rewrite HX.
    pose proof (n_test_of_pos 1 (le_n 1)) as Hpos.
    destruct (1 - n_test_of 1 =? 0)%nat eqn:Hzero.
    + by apply raises_inl.
    + apply Nat.eqb_neq in Hzero. lia.
  - apply (train_unknown_label self0 [lr] lr); [by left| |]; tauto.
Qed.
End TrainingErrors.

Lemma train_rejects_unknown_label_demo :
  raises (train (H:=constant_sklearn) __init__
            [ LabeledRow (Row 60000 700 "Employed" "Home Loan") "Eligible";
              LabeledRow (Row 30000 500 "Employed" "Car Loan") "Rejected" ])
    "ValueError".
Proof.
  apply (train_rejects_unknown_label (H:=constant_sklearn) __init__ _
           (LabeledRow (Row 30000 500 "Employed" "Car Loan") "Rejected")).
  - apply elem_of_cons. right. by left.
  - discriminate.
  - discriminate.
Defined.

Lemma train_single_row_fails_demo :
  raises (train (H:=constant_sklearn) __init__
            [ LabeledRow (Row 60000 700 "Employed" "Home Loan") "Eligible" ])
    "ValueError".
Proof. apply train_single_row_fails. reflexivity. Defined.

(* ================================================================== *)
(** * Further properties of the split and of inference *)

Lemma result_mapM_Forall2 {A B} (f : A → result B) (l : list A) (k : list B) :
  result_mapM f l = inr k ↔ Forall2 (λ x y, f x = inr y) l k.
Proof.
  revert k. induction l as [|a l IH]; intros k; simpl.
  - split; [intros [= <-]; constructor|by intros ->%Forall2_nil_inv_l].
  - split.
    + destruct (f a) as [e|b] eqn:Ha; simpl; [done|].
      destruct (result_mapM f l) as [e|k'] eqn:Hk; simpl; [done|].
      intros [= <-]. constructor; [done|]. by apply IH.
    + intros (b & k' & Hb & Hk' & ->)%Forall2_cons_inv_l.
      rewrite Hb. simpl. apply IH in Hk'. by rewrite Hk'.
Qed.

Lemma result_mapM_app {A B} (f : A → result B) (l1 l2 : list A) (k1 k2 : list B) :
  result_mapM f l1 = inr k1 → result_mapM f l2 = inr k2 →
  result_mapM f (l1 ++ l2) = inr (k1 ++ k2).
Proof.
  rewrite !result_mapM_Forall2. apply Forall2_app.
Qed.

Lemma result_mapM_Permutation {A B} (f : A → result B) (l l' : list A)
    (k : list B) :
  l ≡ₚ l' → result_mapM f l = inr k →
  ∃ k', result_mapM f l' = inr k' ∧ k ≡ₚ k'.
Proof.
  intros Hperm. revert k.
  induction Hperm as [|a l l' Hperm IH|a b l|l l' l'' _ IH1 _ IH2]; intros k.
  - intros [= <-]. by exists [].
  - simpl. destruct (f a) as [e|x]; simpl; [done|].
    destruct (result_mapM f l) as [e|k0] eqn:Hk; simpl; [done|].
    intros [= <-]. destruct (IH k0 eq_refl) as (k' & -> & Hk').
    exists (x :: k'). split; [done|]. by constructor.
  - simpl. destruct (f b) as [e|y]; simpl; [done|].
    destruct (f a) as [e|x]; simpl; [done|].
    destruct (result_mapM f l) as [e|k0]; simpl; [done|].
    intros [= <-]. exists (x :: y :: k0). split; [done|]. constructor.
  - intros Hk. destruct (IH1 k Hk) as (k' & Hk' & Hp1).
    destruct (IH2 k' Hk') as (k'' & Hk'' & Hp2).
    exists k''. split; [done|]. by etrans.
Qed.

Lemma take_rows_all {A} (X : list A) :
  take_rows X (seq 0 (length X)) = inr X.
Proof.
  unfold take_rows. apply result_mapM_Forall2.
  apply Forall2_same_length_lookup_2.
  - apply length_seq.
  - intros i j x Hj Hx. apply lookup_seq in Hj as [-> _]. simpl. by rewrite Hx.
Qed.

Lemma take_rows_zip {A B} (X : list A) (y : list B) (indices : list nat)
    (xs : list A) (ys : list B) :
  take_rows X indices = inr xs → take_rows y indices = inr ys →
  take_rows (zip X y) indices = inr (zip xs ys).
Proof.
  unfold take_rows. rewrite !result_mapM_Forall2.
  intros HX. revert ys.
  induction HX as [|i x indices xs Hx _ IH]; intros ys.
  - intros ->%Forall2_nil_inv_l. constructor.
  - intros (b & ys' & Hb & Hys & ->)%Forall2_cons_inv_l.
    simpl. constructor; [|by apply IH].
    rewrite lookup_zip_with.
    destruct (X !! i) as [x'|]; simpl in *; [|done].
    destruct (y !! i) as [b'|]; simpl in *; [|done].
    unfold ok in *. congruence.
Qed.

Section SplitFacts.
Context `{Sklearn}.

Lemma split_permutation_perm_zip {A B} (X : list A) (y : list B) :
  length X = length y →
  split_permutation (length X) ≡ₚ seq 0 (length (zip X y)).
Proof.
  intros Hlen. rewrite length_zip, <- Hlen, Nat.min_id.
  apply split_permutation_perm.
Qed.

(** X14.  [train_test_split] partitions the sample: the test part has
    the test share of the rows, the training part has the rest, no row
    is lost or repeated, and every feature row stays with its own
    label. *)
Theorem train_test_split_partition {A B} (X : list A) (y : list B)
    (X_train X_test : list A) (y_train y_test : list B) :
  length X = length y →
  train_test_split X y = inr (X_train, X_test, y_train, y_test) →
  length X_test = n_test_of (length X)
  ∧ length X_train = (length X - n_test_of (length X))%nat
  ∧ length y_train = length X_train
  ∧ length y_test = length X_test
  ∧ zip X_train y_train ++ zip X_test y_test ≡ₚ zip X y.
Proof.
  intros Hlen. unfold train_test_split.
  destruct (length X - n_test_of (length X) =? 0)%nat eqn:Hzero; [done|].
  apply Nat.eqb_neq in Hzero.
  set (n := length X) in *. set (t := n_test_of n) in *.
  set (perm := split_permutation n).
  assert (length perm = n) as Hperm.
  { unfold perm. rewrite (Permutation_length (split_permutation_perm n)).
    apply length_seq. }
  assert (take (n - t) (drop t perm) = drop t perm) as ->.
  { apply take_ge. rewrite length_drop. lia. }
  destruct (take_rows X (drop t perm)) as [e|xs] eqn:Hxs; simpl; [done|].
  destruct (take_rows X (take t perm)) as [e|xt] eqn:Hxt; simpl; [done|].
  destruct (take_rows y (drop t perm)) as [e|ys] eqn:Hys; simpl; [done|].
  destruct (take_rows y (take t perm)) as [e|yt] eqn:Hyt; simpl; [done|].
  intros [= <- <- <- <-].
  pose proof (result_mapM_length _ _ _ Hxs) as Lxs.
  pose proof (result_mapM_length _ _ _ Hxt) as Lxt.
  pose proof (result_mapM_length _ _ _ Hys) as Lys.
  pose proof (result_mapM_length _ _ _ Hyt) as Lyt.
  rewrite length_drop in Lxs, Lys. rewrite length_take in Lxt, Lyt.
  split; [lia|]. split; [lia|]. split; [lia|]. split; [lia|].
  pose proof (take_rows_zip _ _ _ _ _ Hxs Hys) as Htrain.
  pose proof (take_rows_zip _ _ _ _ _ Hxt Hyt) as Htest.
  pose proof (result_mapM_app _ _ _ _ _ Htest Htrain) as Hall.
  rewrite take_drop in Hall. fold (take_rows (zip X y) perm) in Hall.
  destruct (result_mapM_Permutation _ perm (seq 0 (length (zip X y))) _
              (split_permutation_perm_zip X y Hlen) Hall) as (k' & Hk' & Hp).
  fold (take_rows (zip X y) (seq 0 (length (zip X y)))) in Hk'.
  rewrite take_rows_all in Hk'. injection Hk' as <-.
  rewrite <- Hp. apply Permutation_app_comm.
Qed.
End SplitFacts.

Lemma train_test_split_partition_demo :
  ∃ X_train X_test y_train y_test,
    train_test_split (H:=constant_sklearn) [10; 20; 30; 40; 50; 60] [0; 1; 0; 1; 1; 0]
    = inr (X_train, X_test, y_train, y_test)
    ∧ length X_test = 2%nat
    ∧ zip X_train y_train ++ zip X_test y_test
      ≡ₚ zip [10; 20; 30; 40; 50; 60] [0; 1; 0; 1; 1; 0].
Proof.
  destruct (train_test_split (H:=constant_sklearn)
              [10; 20; 30; 40; 50; 60] [0; 1; 0; 1; 1; 0])
    as [e|[[[X_train X_test] y_train] y_test]] eqn:Hsplit.
  - exfalso. vm_compute in Hsplit. discriminate.
  - destruct (train_test_split_partition
                [10; 20; 30; 40; 50; 60] [0; 1; 0; 1; 1; 0] _ _ _ _ eq_refl Hsplit)
      as (Htest & _ & _ & _ & Hperm).
    exists X_train, X_test, y_train, y_test.
    split; [reflexivity|]. split; [exact Htest|exact Hperm].
Defined.

Lemma le_inverse_transform_elem (classes : list string) (codes : list Z)
    (labels : list string) :
  le_inverse_transform (MkLabelEncoder (Some classes)) codes = inr labels →
  ∀ l, l ∈ labels → l ∈ classes.
Proof.
  unfold le_inverse_transform. simpl.
  intros Hlabels%result_mapM_Forall2 l (j & Hj)%list_elem_of_lookup_1.
  destruct (Forall2_lookup_r _ _ _ _ _ Hlabels Hj) as (c & _ & Hc).
  destruct ((0 <=? c) && (c <? Z.of_nat (length classes))); [|done].
  destruct (classes !! Z.to_nat c) as [s|] eqn:Hs; [|done].
  injection Hc as <-. by eapply list_elem_of_lookup_2.
Qed.

Section InferenceFacts.
Context `{Sklearn}.

(** X15.  In a pipeline fitted by [train], an inference frame whose
    employment statuses and loan types all occur in the training frame
    passes both categorical encoders: preprocessing then returns what
    the scaler returns on the three numerical columns, with one code per
    row for either categorical column. *)
Theorem known_categories_are_encoded (self0 self : LoanEligibilityModel)
    (training : list labeled_row) out (df : list row) :
  train self0 training = inr (self, out) →
  (∀ r, r ∈ df →
        employment_status r ∈ employment_status <$> (applicant <$> training)
        ∧ loan_type r ∈ loan_type <$> (applicant <$> training)) →
  ∃ status_codes type_codes,
    length status_codes = length df
    ∧ length type_codes = length df
    ∧ preprocess_data self df false
      = (let! scaled :=
           scaler_transform (scaler self)
             (zip_with (λ x ratio, (income x, inject_Z (credit_score x), ratio)) df
                ((λ x, _calculate_income_ratio (income x) (loan_type x)) <$> df)) in
         ok (self, processed_frame scaled status_codes type_codes)).
Proof.
  intros (Henc & _)%train_inv Hknown.
  destruct (le_transform_seen (employment_status <$> (applicant <$> training))
              (employment_status <$> df)) as (status_codes & Hstatus & Hslen).
  { intros s (r & -> & Hr)%list_elem_of_fmap. by apply Hknown. }
  destruct (le_transform_seen (loan_type <$> (applicant <$> training))
              (loan_type <$> df)) as (type_codes & Htype & Htlen).
  { intros s (r & -> & Hr)%list_elem_of_fmap. by apply Hknown. }
  exists status_codes, type_codes. rewrite length_fmap in Hslen, Htlen.
  split; [done|]. split; [done|].
  unfold preprocess_data, encode_column. rewrite Henc.
  rewrite lookup_insert_ne by done. rewrite !lookup_insert_eq.
  rewrite Hstatus. simpl. rewrite Henc, lookup_insert_eq, Htype. simpl.
  by destruct (scaler_transform _ _).
Qed.

(** X16.  Whatever the classifier and the scaler answer, [predict] of a
    trained pipeline never returns a label other than Eligible and Not
    Eligible. *)
Theorem predict_labels_are_binary (self0 self : LoanEligibilityModel)
    (training : list labeled_row) out (df : list row)
    (labels : list string) (proba : list (list Q)) :
  train self0 training = inr (self, out) →
  predict self df = inr (labels, proba) →
  ∀ l, l ∈ labels → l = "Eligible" ∨ l = "Not Eligible".
Proof.
  intros (_ & Htarget & _)%train_inv. unfold predict.
  destruct (preprocess_data self df false) as [e|[self' X]]; simpl; [done|].
  destruct (rf_predict (model self) X) as [e|predictions]; simpl; [done|].
  destruct (rf_predict_proba (model self) X) as [e|proba']; simpl; [done|].
  destruct (_apply_custom_rules self df predictions) as [e|final]; simpl; [done|].
  destruct (le_inverse_transform (target_encoder self) final)
    as [e|labels'] eqn:Hlabels; simpl; [done|].
  intros [= <- <-] l Hl. rewrite Htarget in Hlabels.
  apply (le_inverse_transform_elem _ _ _ Hlabels) in Hl.
  rewrite !elem_of_cons in Hl. destruct Hl as [->|[->|Hl]]; auto.
  by apply elem_of_nil in Hl.
Qed.

End InferenceFacts.

Lemma known_categories_are_encoded_demo :
  ∃ self out status_codes type_codes,
    train (H:=constant_sklearn) __init__ demo_corpus = inr (self, out)
    ∧ preprocess_data self [Row 80000 710 "Employed" "Car Loan"] false
      = (let! scaled :=
           scaler_transform (scaler self)
             (zip_with (λ x ratio, (income x, inject_Z (credit_score x), ratio))
                [Row 80000 710 "Employed" "Car Loan"]
                ((λ x, _calculate_income_ratio (income x) (loan_type x))
                   <$> [Row 80000 710 "Employed" "Car Loan"])) in
         ok (self, processed_frame scaled status_codes type_codes)).
Proof.
  destruct (train (H:=constant_sklearn) __init__ demo_corpus)
    as [e|[self out]] eqn:Htrain.
  - exfalso. vm_compute in Htrain. discriminate.
  - destruct (known_categories_are_encoded _ _ _ _
                [Row 80000 710 "Employed" "Car Loan"] Htrain)
      as (status_codes & type_codes & _ & _ & Hpre).
    + intros r Hr. apply elem_of_cons in Hr as [->|Hr];
        [|by apply elem_of_nil in Hr].
      simpl. rewrite !elem_of_cons. tauto.
    + exists self, out, status_codes, type_codes. split; [reflexivity|exact Hpre].
Defined.

Lemma predict_labels_are_binary_demo :
  ∃ self out labels proba,
    train (H:=constant_sklearn) __init__ demo_corpus = inr (self, out)
    ∧ predict self [Row 80000 710 "Employed" "Car Loan"] = inr (labels, proba)
    ∧ ∀ l, l ∈ labels → l = "Eligible" ∨ l = "Not Eligible".
Proof.
  destruct (train (H:=constant_sklearn) __init__ demo_corpus)
    as [e|[self out]] eqn:Htrain.
  - exfalso. vm_compute in Htrain. discriminate.
  - destruct (predict self [Row 80000 710 "Employed" "Car Loan"])
      as [e|[labels proba]] eqn:Hpredict.
    + exfalso. vm_compute in Htrain. injection Htrain as <- _.
      vm_compute in Hpredict. discriminate.
    + exists self, out, labels, proba. split; [reflexivity|].
      split; [exact Hpredict|].
      apply (predict_labels_are_binary _ _ _ _ _ _ _ Htrain Hpredict).
Defined.


(* ================================================================== *)
(** * The overrides against the labelling policy *)

(** X20.  The business rules of the override layer never contradict
    the policy that labelled the training data: on every row of a known
    loan type, a row that meets the rejection override is labelled Not
    Eligible by the policy, a row that meets the approval override is
    labelled Eligible, and no row meets both overrides. *)
Theorem overrides_agree_with_policy (r : row) :
  loan_type r ∈ ["Home Loan"; "Education Loan"; "Car Loan"] →
  (override_reject r → determine_eligibility r = inr "Not Eligible")
  ∧ (override_accept r → determine_eligibility r = inr "Eligible")
  ∧ ¬ (override_reject r ∧ override_accept r).
Proof.
  intros Hknown.
  assert (∃ c, loan_criteria !! loan_type r = Some c) as [c Hc].
  { set_unfold in Hknown. destruct Hknown as [->|[->|[->|[]]]]; by eexists. }
  destruct (determine_eligibility_policy r c Hc) as (label & -> & Hpolicy).
  destruct Hpolicy as (Hrej & Hacc & _).
  assert (600 ≤ min_credit c ≤ 640 ∧ preferred_credit c ≤ 700
          ∧ (inject_Z (min_income c) <= 50000)%Q
          ∧ (1.5 * inject_Z (preferred_income c) <= 120000)%Q
          ∧ (loan_type r = "Home Loan" → (25000 <= inject_Z (min_income c))%Q))
    as (Hmc & Hpc & Hmi & Hpi & Hhome).
  { destruct (loan_criteria_inv _ _ Hc) as [[Ht ->]|[[Ht ->]|[Ht ->]]];
      rewrite Ht; simpl; repeat split; try lia; try (by vm_compute);
      intros; discriminate. }
  assert (override_reject r → hard_reject c r) as Hreject.
  { intros [Hcredit|[[Hemp Hloan]|[Hinc Hloan]]].
    - left. lia.
    - right. left. split; [done|]. rewrite Hloan. discriminate.
    - right. right. specialize (Hhome Hloan). lra. }
  assert (override_accept r → ¬ hard_reject c r ∧ hard_accept c r) as Haccept.
  { intros (Hcredit & Hinc & Hemp). split.
    - intros [?|[[Hun _]|?]]; [lia|congruence|lra].
    - repeat split; [lia|lra|done]. }
  split; [|split].
  - intros Hr%Hreject. f_equal. by apply Hrej.
  - intros [Hn Ha]%Haccept. f_equal. by apply Hacc.
  - intros [Hr%Hreject [Hn _]%Haccept]. done.
Qed.

Lemma overrides_agree_with_policy_demo :
  determine_eligibility (Row 200000 820 "Employed" "Home Loan") = inr "Eligible".
Proof.
  destruct (overrides_agree_with_policy (Row 200000 820 "Employed" "Home Loan"))
    as (_ & Haccept & _).
  - simpl. apply elem_of_cons. by left.
  - apply Haccept. unfold override_accept. simpl.
    split; [lia|]. split; reflexivity.
Defined.
